(** * Ksicht: the core models of [ksicht/core/models.py]

    A shallow embedding of the grade lifecycle helpers, the results
    aggregation of a series and the sticker assignment, with the database
    as an explicit value. *)

From Stdlib Require Import Ascii.
From stdpp Require Import gmap strings list sorting pretty.

Local Open Scope Z_scope.

(** ** Python's stable sort

    [list.sort(key=...)] and [sorted(..., key=..., reverse=True)] are stable:
    elements that compare equal keep their relative order, also under
    [reverse=True].  [before x y] says that [x], which stood in front of [y],
    may stay in front of it. *)

Section stable_sort.
Context {A : Type} (before : A → A → bool).

Fixpoint insert_stable (x : A) (l : list A) : list A :=
  match l with
  | [] => [x]
  | y :: l' => if before x y then x :: l else y :: insert_stable x l'
  end.

Definition sorted_stable (l : list A) : list A := foldr insert_stable [] l.

End stable_sort.

(** ** The data model

    Primary keys (UUIDs and automatic ids) are integers.  A [DateField] is
    the day's ordinal, a [DateTimeField] an instant on the time line, a
    [DecimalField] with two decimal places a number of hundredths.  Foreign
    keys hold the key of the row they point to. *)

Module Grade.
Record t := mk {
  pk : Z;
  school_year : string;
  (* [None] only on an instance that has not yet passed field validation:
     the columns are [null=False] *)
  start_date : option Z;
  end_date : option Z;
}.
End Grade.

Module GradeSeries.
Record t := mk {
  pk : Z;
  grade : Z;
  (* the one-character choice '1'..'4', as its place in the order in which
     the database compares the text: on single digits the number itself *)
  series : Z;
  submission_deadline : Z;
  (* the stored name of the uploaded file: the column is [null=True, blank=True] *)
  task_file : option string;
  results_published : bool;
}.
End GradeSeries.

Module Task.
Record t := mk {
  pk : Z;
  series : Z;
  title : string;
  points : Z;
}.
End Task.

Module GradeApplication.
Record t := mk {
  pk : Z;
  grade : Z;
  participant : Z;
}.
End GradeApplication.

Module TaskSolutionSubmission.
Record t := mk {
  pk : Z;
  application_id : Z;
  task_id : Z;
  file : option string;
  (* [None]: not yet scored *)
  score : option Z;
}.
End TaskSolutionSubmission.

Module Sticker.
Record t := mk {
  pk : Z;
  title : string;
  nr : Z;
  handpicked : bool;
}.
End Sticker.

(** The database: one table per model, rows in the order an unordered query
    returns them, and the many-to-many table behind [Sticker.uses] as a set
    of (sticker key, application key) rows. *)
Record DB := mkDB {
  Grade_objects : list Grade.t;
  GradeSeries_objects : list GradeSeries.t;
  Task_objects : list Task.t;
  GradeApplication_objects : list GradeApplication.t;
  TaskSolutionSubmission_objects : list TaskSolutionSubmission.t;
  Sticker_objects : list Sticker.t;
  Sticker_uses : gset (Z * Z);
}.

(** ** [GradeSeries.accepts_solution_submissions] *)

(** [task_file] is a [models.FileField].  Reading such an attribute of a
    model instance goes through the field's descriptor, which answers the
    field's [FieldFile] object around the stored name, also when no name is
    stored: the attribute is an object, never [None]. *)
Record FieldFile := mkFieldFile { name : option string }.

Definition task_file_attr (self : GradeSeries.t) : option FieldFile :=
  Some (mkFieldFile (GradeSeries.task_file self)).

(** [FieldFile.__bool__]: a file is attached when the stored name is not empty. *)
Definition FieldFile_bool (f : FieldFile) : bool :=
  match name f with
  | Some n => negb (String.eqb n "")
  | None => false
  end.

Definition task_file_attached (self : GradeSeries.t) : bool :=
  FieldFile_bool (mkFieldFile (GradeSeries.task_file self)).

(** [x is not None] *)
Definition is_not_None {A} (x : option A) : bool :=
  match x with Some _ => true | None => false end.

(** [now] is [datetime.now(self.submission_deadline.tzinfo)], the instant at
    which the property is read. *)
Definition accepts_solution_submissions (now : Z) (self : GradeSeries.t) : bool :=
  is_not_None (task_file_attr self) && bool_decide (now < GradeSeries.submission_deadline self).

(** ** [Grade.get_current_series] *)

(** [self.series.all()]: the series of the grade, in the order of
    [Meta.ordering = ("grade", "series")]. *)
Definition Grade_series (db : DB) (self : Grade.t) : list GradeSeries.t :=
  sorted_stable (λ a b, bool_decide (GradeSeries.series a ≤ GradeSeries.series b))
    (filter (λ s, GradeSeries.grade s = Grade.pk self) (GradeSeries_objects db)).

(** The order of [sort(key=attrgetter("submission_deadline"))]. *)
Definition deadline_le (a b : GradeSeries.t) : bool :=
  bool_decide (GradeSeries.submission_deadline a ≤ GradeSeries.submission_deadline b).

(** The chain [filter(...).sort(key=...).head()]; [head] of an empty list is
    [None].  The property is read for every series at the one instant [now]. *)
Definition get_current_series (now : Z) (db : DB) (self : Grade.t) : option GradeSeries.t :=
  head
    (sorted_stable deadline_le
       (filter (λ s, accepts_solution_submissions now s = true) (Grade_series db self))).

(** ** [Grade.full_clean] *)

Inductive validation :=
  | Valid
  | ValidationError (message : string).

(** [start_date__lte=d] and [end_date__gte=d] on a stored row. *)
Definition date_lte (col : option Z) (d : Z) : Prop :=
  match col with Some c => c ≤ d | None => False end.
Definition date_gte (col : option Z) (d : Z) : Prop :=
  match col with Some c => d ≤ c | None => False end.

Global Instance date_lte_dec col d : Decision (date_lte col d).
Proof. destruct col; simpl; apply _. Defined.
Global Instance date_gte_dec col d : Decision (date_gte col d).
Proof. destruct col; simpl; apply _. Defined.

(** The [Q(...) | Q(...)] of the query: the row's range holds the start
    date, or it holds the end date. *)
Definition overlap_query (start_d end_d : Z) (g : Grade.t) : Prop :=
  (date_lte (Grade.start_date g) start_d ∧ date_gte (Grade.end_date g) start_d)
  ∨ (date_lte (Grade.start_date g) end_d ∧ date_gte (Grade.end_date g) end_d).

Global Instance overlap_query_dec s e g : Decision (overlap_query s e g).
Proof. unfold overlap_query. apply _. Defined.

(** [Grade.objects] in the order of [Meta.ordering = ("-end_date",)]. *)
Definition end_date_desc (a b : Grade.t) : bool :=
  match Grade.end_date a, Grade.end_date b with
  | Some x, Some y => bool_decide (y ≤ x)
  | Some _, None => true
  | None, Some _ => false
  | None, None => true
  end.

Definition Grade_all (db : DB) : list Grade.t :=
  sorted_stable end_date_desc (Grade_objects db).

Section full_clean.
(** [super().full_clean()]: the field and uniqueness validation of the
    framework. *)
Variable Model_full_clean : DB → Grade.t → validation.

Definition full_clean (db : DB) (self : Grade.t) : validation :=
  match Model_full_clean db self with
  | ValidationError m => ValidationError m
  | Valid =>
      match Grade.start_date self, Grade.end_date self with
      | Some start_d, Some end_d =>
          match head (filter (λ g, Grade.pk g ≠ Grade.pk self)
                        (filter (overlap_query start_d end_d) (Grade_all db))) with
          | Some g =>
              ValidationError
                ("Datum konání se překrývá s ročníkem '" +:+ Grade.school_year g +:+ "'.")
          | None => Valid
          end
      | _, _ => Valid
      end
  end.

End full_clean.

(** ** [GradeSeries.calculate_results] *)

(** [py_.find(collection, predicate)]: the first element that satisfies the
    predicate, [None] when there is none. *)
Definition py_find {A} (P : A → Prop) `{!∀ x, Decision (P x)} (l : list A) : option A :=
  head (filter P l).

(** A Python [dict] keyed by applications.  A model instance hashes and
    compares by its primary key; the dict keeps its keys in insertion order,
    and assigning to a key that is present keeps the key and its place. *)
Section pydict.
Context {V : Type}.

Fixpoint dict_set (k : GradeApplication.t) (v : V)
  (d : list (GradeApplication.t * V)) : list (GradeApplication.t * V) :=
  match d with
  | [] => [(k, v)]
  | (k', v') :: d' =>
      if decide (GradeApplication.pk k' = GradeApplication.pk k)
      then (k', v) :: d'
      else (k', v') :: dict_set k v d'
  end.

(** [d[k]]; [None] stands for the [KeyError]. *)
Fixpoint dict_get (k : GradeApplication.t)
  (d : list (GradeApplication.t * V)) : option V :=
  match d with
  | [] => None
  | (k', v') :: d' =>
      if decide (GradeApplication.pk k' = GradeApplication.pk k)
      then Some v'
      else dict_get k d'
  end.

End pydict.

(** The value [scoring_dict] holds per application.  [by_tasks] is keyed by
    task objects, which hash and compare by primary key, and, as any dict, it
    takes [None] as a key too: [Some pk] is the task with that key, [None] is
    Python's [None].  Its values are scores or [None]. *)
Record scores := mkScores {
  by_tasks : gmap (option Z) (option Z);
  total : Z;
}.

(** [self.grade.applications.all()] *)
Definition applications_of (db : DB) (self : GradeSeries.t) : list GradeApplication.t :=
  filter (λ a, GradeApplication.grade a = GradeSeries.grade self) (GradeApplication_objects db).

(** [self.tasks.all()].  The order of the tasks plays no part below: the
    tasks are looked up by key and become keys of a dict. *)
Definition tasks_of (db : DB) (self : GradeSeries.t) : list Task.t :=
  filter (λ t, Task.series t = GradeSeries.pk self) (Task_objects db).

(** [application__grade=self.grade] on a submission: the join with the
    applications. *)
Definition application__grade (db : DB) (g : Z) (s : TaskSolutionSubmission.t) : Prop :=
  Exists (λ a, GradeApplication.pk a = TaskSolutionSubmission.application_id s
               ∧ GradeApplication.grade a = g)
    (GradeApplication_objects db).

(** [series__series__lte=n] on a task: the join with the series. *)
Definition series__series__lte (db : DB) (n : Z) (t : Task.t) : Prop :=
  Exists (λ gs, GradeSeries.pk gs = Task.series t ∧ GradeSeries.series gs ≤ n)
    (GradeSeries_objects db).

(** [task__series__series__lte=n] on a submission. *)
Definition task__series__series__lte (db : DB) (n : Z) (s : TaskSolutionSubmission.t) : Prop :=
  Exists (λ t, Task.pk t = TaskSolutionSubmission.task_id s ∧ series__series__lte db n t)
    (Task_objects db).

(** [series__grade=g, series__series__lte=n] on a task: both conditions on
    the one joined series. *)
Definition series__grade_and_lte (db : DB) (g n : Z) (t : Task.t) : Prop :=
  Exists (λ gs, GradeSeries.pk gs = Task.series t
                ∧ GradeSeries.grade gs = g ∧ GradeSeries.series gs ≤ n)
    (GradeSeries_objects db).

Global Instance application__grade_dec db g s : Decision (application__grade db g s).
Proof. unfold application__grade. apply _. Defined.
Global Instance series__series__lte_dec db n t : Decision (series__series__lte db n t).
Proof. unfold series__series__lte. apply _. Defined.
Global Instance task__series__series__lte_dec db n s :
  Decision (task__series__series__lte db n s).
Proof. unfold task__series__series__lte. apply _. Defined.
Global Instance series__grade_and_lte_dec db g n t : Decision (series__grade_and_lte db g n t).
Proof. unfold series__grade_and_lte. apply _. Defined.

(** [TaskSolutionSubmission.objects.filter(application__grade=self.grade,
    task__series__series__lte=self.series)] *)
Definition submissions_of (db : DB) (self : GradeSeries.t) : list TaskSolutionSubmission.t :=
  filter (λ s, application__grade db (GradeSeries.grade self) s
               ∧ task__series__series__lte db (GradeSeries.series self) s)
    (TaskSolutionSubmission_objects db).

(** [Task.objects.filter(series__grade=self.grade, series__series__lte=self.series)] *)
Definition tasks_upto (db : DB) (self : GradeSeries.t) : list Task.t :=
  filter (series__grade_and_lte db (GradeSeries.grade self) (GradeSeries.series self))
    (Task_objects db).

Definition Zsum (l : list Z) : Z := foldr Z.add 0 l.

(** [aggregate(models.Sum(...))]: the sum of no rows is SQL's NULL, that is
    [None]. *)
Definition aggregate_Sum (l : list Z) : option Z :=
  match l with
  | [] => None
  | _ => Some (Zsum l)
  end.

Definition _find_application (applications : list GradeApplication.t) (app_id : Z)
  : option GradeApplication.t :=
  py_find (λ a, GradeApplication.pk a = app_id) applications.

Definition _find_task (tasks : list Task.t) (task_id : Z) : option Task.t :=
  py_find (λ t, Task.pk t = task_id) tasks.

(** [{a: {"by_tasks": {t: None for t in tasks}, "total": 0} for a in applications}] *)
Definition empty_by_tasks (tasks : list Task.t) : gmap (option Z) (option Z) :=
  foldl (λ m t, <[Some (Task.pk t) := None]> m) ∅ tasks.

Definition scoring_dict_init (applications : list GradeApplication.t) (tasks : list Task.t)
  : list (GradeApplication.t * scores) :=
  foldl (λ d a, dict_set a (mkScores (empty_by_tasks tasks) 0) d) [] applications.

(** One turn of [for s in submissions].  [_find_application] answers an
    application or [None]; subscripting [scoring_dict] with a key it does not
    hold raises [KeyError], here [None].  [_find_task] answers a task or
    [None], and the answer is the key written in [by_tasks]. *)
Definition score_submission (applications : list GradeApplication.t) (tasks : list Task.t)
  (d : list (GradeApplication.t * scores)) (s : TaskSolutionSubmission.t)
  : option (list (GradeApplication.t * scores)) :=
  a ← _find_application applications (TaskSolutionSubmission.application_id s);
  sc ← dict_get a d;
  let t := _find_task tasks (TaskSolutionSubmission.task_id s) in
  Some (dict_set a
          (mkScores (<[Task.pk <$> t := TaskSolutionSubmission.score s]> (by_tasks sc))
                    (total sc + default 0 (TaskSolutionSubmission.score s)))
          d).

Definition score_submissions (applications : list GradeApplication.t) (tasks : list Task.t)
  (d : list (GradeApplication.t * scores)) (submissions : list TaskSolutionSubmission.t)
  : option (list (GradeApplication.t * scores)) :=
  foldl (λ acc s, d' ← acc; score_submission applications tasks d' s) (Some d) submissions.

(** A row of the listing: [(application, scores["by_tasks"], scores["total"])]. *)
Definition row : Type := GradeApplication.t * gmap (option Z) (option Z) * Z.
Definition row_application (r : row) : GradeApplication.t := r.1.1.
Definition row_by_tasks (r : row) : gmap (option Z) (option Z) := r.1.2.
Definition row_total (r : row) : Z := r.2.

Record results := mkResults {
  max_score : option Z;
  listing : list row;
}.

(** The order of [sorted(scoring, key=lambda row: row[2], reverse=True)]. *)
Definition total_desc (r1 r2 : row) : bool := bool_decide (row_total r2 ≤ row_total r1).

(** [None] when the loop raises. *)
Definition calculate_results (db : DB) (self : GradeSeries.t) : option results :=
  let applications := applications_of db self in
  let tasks := tasks_of db self in
  let submissions := submissions_of db self in
  scoring_dict ← score_submissions applications tasks
                   (scoring_dict_init applications tasks) submissions;
  let scoring := (λ '(application, sc), (application, by_tasks sc, total sc)) <$> scoring_dict in
  Some (mkResults
          (aggregate_Sum (Task.points <$> tasks_upto db self))
          (sorted_stable total_desc scoring)).

(** ** [sticker_auto_assignment] and [sync_sticker_assignment] *)

(** [flatten().uniq()]: the numbers of all items, each once, at its first
    place. *)
Fixpoint uniq_from (seen : list Z) (l : list Z) : list Z :=
  match l with
  | [] => []
  | x :: l' =>
      if decide (x ∈ seen) then uniq_from seen l' else x :: uniq_from (x :: seen) l'
  end.

Definition flatten_uniq (ls : list (list Z)) : list Z := uniq_from [] (concat ls).

(** [{s.nr: s for s in Sticker.objects.filter(nr__in=sticker_nrs)}]: of two
    stickers with one number the later row stays. *)
Definition stickers_by_nr (db : DB) (sticker_nrs : list Z) : gmap Z Sticker.t :=
  foldl (λ m s, <[Sticker.nr s := s]> m) ∅
    (filter (λ s, Sticker.nr s ∈ sticker_nrs) (Sticker_objects db)).

(** [[stickers_by_nr[nr] for nr in sticker_nrs if nr in stickers_by_nr]];
    the subscript raises [KeyError], here [None], on a number the dict does
    not hold.  A set of numbers is the list of its elements in the order the
    set is iterated. *)
Fixpoint resolve_stickers (by_nr : gmap Z Sticker.t) (sticker_nrs : list Z)
  : option (list Sticker.t) :=
  match sticker_nrs with
  | [] => Some []
  | nr :: rest =>
      if decide (nr ∈ dom by_nr)
      then s ← by_nr !! nr; l ← resolve_stickers by_nr rest; Some (s :: l)
      else resolve_stickers by_nr rest
  end.

Definition _replace_with_sticker_objs (by_nr : gmap Z Sticker.t)
  (listing_item : GradeApplication.t * list Z) : option (GradeApplication.t * list Sticker.t) :=
  let '(application, sticker_nrs) := listing_item in
  l ← resolve_stickers by_nr sticker_nrs; Some (application, l).

Definition sticker_auto_assignment (db : DB) (listing : list (GradeApplication.t * list Z))
  : option (list (GradeApplication.t * list Sticker.t)) :=
  let sticker_nrs := flatten_uniq (snd <$> listing) in
  let by_nr := stickers_by_nr db sticker_nrs in
  mapM (_replace_with_sticker_objs by_nr) listing.

(** [sticker.uses.add(application)]: the row is added to the many-to-many
    table unless it is there. *)
Definition uses_add (sticker : Sticker.t) (application : GradeApplication.t) (db : DB) : DB :=
  mkDB (Grade_objects db) (GradeSeries_objects db) (Task_objects db)
       (GradeApplication_objects db) (TaskSolutionSubmission_objects db) (Sticker_objects db)
       ({[ (Sticker.pk sticker, GradeApplication.pk application) ]} ∪ Sticker_uses db).

Definition sync_sticker_assignment
  (eligibility_listing : list (GradeApplication.t * list Sticker.t)) (db : DB) : DB :=
  foldl (λ db1 '(application, stickers),
           foldl (λ db2 sticker, uses_add sticker application db2) db1 stickers)
    db eligibility_listing.

(** [sticker.uses.all()], as the set of the applications' keys. *)
Definition uses_of (db : DB) (sticker : Sticker.t) : gset Z :=
  set_map snd (filter (λ p, p.1 = Sticker.pk sticker) (Sticker_uses db)).

(** * Vocabulary of the statements, and example databases *)

(** A series without a task file whose deadline (instant 180) is ahead of
    now (instant 100). *)
Definition series_without_task_file : GradeSeries.t :=
  GradeSeries.mk 12 1 2 180 None false.

(** Two grades whose date ranges share a day. *)
Definition ranges_overlap (a b : Grade.t) : Prop :=
  match Grade.start_date a, Grade.end_date a, Grade.start_date b, Grade.end_date b with
  | Some sa, Some ea, Some sb, Some eb => sa ≤ eb ∧ sb ≤ ea
  | _, _, _, _ => False
  end.

(** A stored grade over the days 100..200, and a new one over 50..250,
    which holds the stored range strictly inside. *)
Definition stored_grade : Grade.t := Grade.mk 1 "2019/2020" (Some 100) (Some 200).
Definition containing_grade : Grade.t := Grade.mk 2 "2020/2021" (Some 50) (Some 250).
Definition db_one_grade : DB := mkDB [stored_grade] [] [] [] [] [] ∅.

(** A new grade over 150..250, which starts within the stored range, and
    one over 300..400, after it. *)
Definition overlapping_grade : Grade.t := Grade.mk 2 "2020/2021" (Some 150) (Some 250).
Definition later_grade : Grade.t := Grade.mk 2 "2020/2021" (Some 300) (Some 400).

(** The keys of a dict, as primary keys, in their order. *)
Definition dict_keys {V : Type} (d : list (GradeApplication.t * V)) : list Z :=
  (λ e, GradeApplication.pk e.1) <$> d.

(** What one submission does to the scores of its application. *)
Definition score_into (tasks : list Task.t) (sc : scores) (s : TaskSolutionSubmission.t) : scores :=
  mkScores
    (<[Task.pk <$> _find_task tasks (TaskSolutionSubmission.task_id s)
       := TaskSolutionSubmission.score s]> (by_tasks sc))
    (total sc + default 0 (TaskSolutionSubmission.score s)).

(** What a run of submissions does to the scores of the application with
    key [p]. *)
Definition scores_after (tasks : list Task.t) (p : Z)
  (submissions : list TaskSolutionSubmission.t) (sc0 : scores) : scores :=
  foldl (λ sc s, if decide (TaskSolutionSubmission.application_id s = p)
                 then score_into tasks sc s else sc)
    sc0 submissions.

(** The scores of the application with key [p] when [calculate_results]
    builds the listing. *)
Definition scores_of (db : DB) (self : GradeSeries.t) (p : Z) : scores :=
  scores_after (tasks_of db self) p (submissions_of db self)
    (mkScores (empty_by_tasks (tasks_of db self)) 0).

(** A grade with two series.  Application 1 has handed in task 101 of the
    first series, scored 5.00, and nothing for task 102 of the second. *)
Definition first_series : GradeSeries.t := GradeSeries.mk 11 1 1 150 (Some "s1.pdf") false.
Definition second_series : GradeSeries.t := GradeSeries.mk 12 1 2 180 (Some "s2.pdf") false.
Definition db_two_series : DB := mkDB
  [Grade.mk 1 "2019/2020" (Some 100) (Some 200)]
  [first_series; second_series]
  [Task.mk 101 11 "Uloha 1" 5; Task.mk 102 12 "Uloha 2" 7]
  [GradeApplication.mk 1 1 1]
  [TaskSolutionSubmission.mk 1 1 101 None (Some 500)]
  [] ∅.

(** Of a row: the key of its application, what [by_tasks] holds under each
    of the given keys, and the total. *)
Definition row_cells (keys : list (option Z)) (r : row)
  : Z * list (option (option Z)) * Z :=
  (GradeApplication.pk (row_application r), (λ k, row_by_tasks r !! k) <$> keys, row_total r).

(** The submissions of the application with key [p] for tasks of series up
    to the ordinal of [self]. *)
Definition submissions_by (db : DB) (self : GradeSeries.t) (p : Z)
  : list TaskSolutionSubmission.t :=
  filter (λ s, TaskSolutionSubmission.application_id s = p
               ∧ task__series__series__lte db (GradeSeries.series self) s)
    (TaskSolutionSubmission_objects db).

(** Every submission of an application of the grade of [self] is for a task
    of a series of that grade. *)
Definition task_within_grade (db : DB) (g : Z) (s : TaskSolutionSubmission.t) : Prop :=
  Forall (λ t, Task.pk t = TaskSolutionSubmission.task_id s →
               Forall (λ gs, GradeSeries.pk gs = Task.series t → GradeSeries.grade gs = g)
                 (GradeSeries_objects db))
    (Task_objects db).

Definition submissions_within_grade (db : DB) (self : GradeSeries.t) : Prop :=
  Forall (λ s, application__grade db (GradeSeries.grade self) s →
               task_within_grade db (GradeSeries.grade self) s)
    (TaskSolutionSubmission_objects db).

Global Instance task_within_grade_dec db g s : Decision (task_within_grade db g s).
Proof. unfold task_within_grade. apply _. Defined.
Global Instance submissions_within_grade_dec db self : Decision (submissions_within_grade db self).
Proof. unfold submissions_within_grade. apply _. Defined.

(** Two grades.  The series of the first grade has no task; its application
    has a submission, scored 5.00, for the task of the second grade's
    series. *)
Definition series_of_first_grade : GradeSeries.t := GradeSeries.mk 11 1 1 150 None false.
Definition db_across_grades : DB := mkDB
  [Grade.mk 1 "2019/2020" (Some 100) (Some 200); Grade.mk 2 "2020/2021" (Some 300) (Some 400)]
  [series_of_first_grade; GradeSeries.mk 21 2 1 350 None false]
  [Task.mk 201 21 "Uloha" 9]
  [GradeApplication.mk 1 1 1]
  [TaskSolutionSubmission.mk 1 1 201 None (Some 500)]
  [] ∅.

(** The submissions of the application with key [p] for the tasks of the
    grade of [self] whose series has an ordinal up to that of [self]. *)
Definition submissions_by_upto (db : DB) (self : GradeSeries.t) (p : Z)
  : list TaskSolutionSubmission.t :=
  filter (λ s, TaskSolutionSubmission.application_id s = p
               ∧ TaskSolutionSubmission.task_id s ∈ Task.pk <$> tasks_upto db self)
    (TaskSolutionSubmission_objects db).

(** A series of a grade that has no task yet. *)
Definition series_no_tasks : GradeSeries.t := GradeSeries.mk 11 1 1 150 None false.
Definition db_no_tasks : DB := mkDB
  [Grade.mk 1 "2019/2020" (Some 100) (Some 200)]
  [series_no_tasks]
  []
  [GradeApplication.mk 1 1 1; GradeApplication.mk 2 1 2]
  [] [] ∅.

(** A grade whose first series has no task and whose second series has one,
    with a submission for it. *)
Definition series_before_tasks : GradeSeries.t := GradeSeries.mk 11 1 1 150 None false.
Definition db_tasks_later : DB := mkDB
  [Grade.mk 1 "2019/2020" (Some 100) (Some 200)]
  [series_before_tasks; GradeSeries.mk 12 1 2 180 None false]
  [Task.mk 102 12 "Uloha" 7]
  [GradeApplication.mk 1 1 1; GradeApplication.mk 2 1 2]
  [TaskSolutionSubmission.mk 1 1 102 None (Some 300)]
  [] ∅.

(** Applications 1 and 2, stickers number 1 and 2, and no sticker number 99. *)
Definition app1 : GradeApplication.t := GradeApplication.mk 1 1 1.
Definition app2 : GradeApplication.t := GradeApplication.mk 2 1 2.
Definition sticker1 : Sticker.t := Sticker.mk 1 "Prvni" 1 false.
Definition sticker2 : Sticker.t := Sticker.mk 2 "Druha" 2 false.
Definition db_two_stickers : DB := mkDB [] [] [] [app1; app2] [] [sticker1; sticker2] ∅.

(** The rows that the listing asks for in the table behind [Sticker.uses]. *)
Definition uses_rows (eligibility_listing : list (GradeApplication.t * list Sticker.t))
  : gset (Z * Z) :=
  list_to_set
    (eligibility_listing ≫= λ item,
       (λ sticker, (Sticker.pk sticker, GradeApplication.pk item.1)) <$> item.2).

Definition with_uses (db : DB) (uses : gset (Z * Z)) : DB :=
  mkDB (Grade_objects db) (GradeSeries_objects db) (Task_objects db)
       (GradeApplication_objects db) (TaskSolutionSubmission_objects db) (Sticker_objects db)
       uses.

(** * The rest of the models *)

(** ** [GradeManager] and [Grade.is_in_progress] *)

(** [current or date.today()]: a date is never falsy, so the given date is
    taken whenever there is one. *)
Definition current_or_today (today : Z) (current : option Z) : Z := default today current.

(** [end_date__lt=d] on a stored row. *)
Definition date_lt (col : option Z) (d : Z) : Prop :=
  match col with Some c => c < d | None => False end.

Global Instance date_lt_dec col d : Decision (date_lt col d).
Proof. destruct col; simpl; apply _. Defined.

(** [filter(start_date__lte=current_date, end_date__gte=current_date).first()],
    in the manager's order. *)
Definition get_current (db : DB) (today : Z) (current : option Z) : option Grade.t :=
  let current_date := current_or_today today current in
  head (filter (λ g, date_lte (Grade.start_date g) current_date
                     ∧ date_gte (Grade.end_date g) current_date)
          (Grade_all db)).

(** [filter(end_date__lt=current_date)] *)
Definition archive (db : DB) (today : Z) (current : option Z) : list Grade.t :=
  let current_date := current_or_today today current in
  filter (λ g, date_lt (Grade.end_date g) current_date) (Grade_all db).

(** [self.start_date <= date.today() <= self.end_date].  Comparing [None]
    with a date raises [TypeError], here [None]; the second comparison is
    made only when the first holds. *)
Definition is_in_progress (today : Z) (self : Grade.t) : option bool :=
  start_d ← Grade.start_date self;
  if bool_decide (start_d ≤ today)
  then end_d ← Grade.end_date self; Some (bool_decide (today ≤ end_d))
  else Some false.

(** ** [EventManager] *)

Module Event.
Record t := mk {
  pk : Z;
  title : string;
  place : option string;
  start_date : Z;
  end_date : Z;
  capacity : option Z;
}.
End Event.

(** The order of [Meta.ordering = ("-start_date",)]. *)
Definition start_date_desc (a b : Event.t) : bool :=
  bool_decide (Event.start_date b ≤ Event.start_date a).

(** [Event.objects], given the rows of the table. *)
Definition Event_all (events : list Event.t) : list Event.t :=
  sorted_stable start_date_desc events.

(** [filter(end_date__gte=current_date)] *)
Definition future (events : list Event.t) (today : Z) (current : option Z) : list Event.t :=
  let current_date := current_or_today today current in
  filter (λ e, current_date ≤ Event.end_date e) (Event_all events).

(** [filter(end_date__lt=current_date)] *)
Definition past (events : list Event.t) (today : Z) (current : option Z) : list Event.t :=
  let current_date := current_or_today today current in
  filter (λ e, Event.end_date e < current_date) (Event_all events).

(** The date lies in the range of the grade. *)
Definition holds_date (g : Grade.t) (d : Z) : Prop :=
  date_lte (Grade.start_date g) d ∧ date_gte (Grade.end_date g) d.

(** Three grades in a row, and a database of them. *)
Definition grade_2018 : Grade.t := Grade.mk 18 "2018/2019" (Some 1) (Some 99).
Definition grade_2019 : Grade.t := Grade.mk 19 "2019/2020" (Some 100) (Some 200).
Definition grade_2020 : Grade.t := Grade.mk 20 "2020/2021" (Some 201) (Some 300).
Definition db_three_grades : DB := mkDB [grade_2019; grade_2018; grade_2020] [] [] [] [] [] ∅.

(** Two series of one grade with the same deadline, both with a task file,
    stored with the later series first. *)
Definition series_3_same_deadline : GradeSeries.t := GradeSeries.mk 13 1 3 500 (Some "s3.pdf") false.
Definition series_2_same_deadline : GradeSeries.t := GradeSeries.mk 12 1 2 500 (Some "s2.pdf") false.
Definition db_same_deadline : DB := mkDB
  [Grade.mk 1 "2019/2020" (Some 100) (Some 200)]
  [series_3_same_deadline; series_2_same_deadline]
  [] [] [] [] ∅.

(** The row that [calculate_results] builds for an application. *)
Definition row_of (db : DB) (self : GradeSeries.t) (a : GradeApplication.t) : row :=
  (a, by_tasks (scores_of db self (GradeApplication.pk a)),
   total (scores_of db self (GradeApplication.pk a))).

(** Three applications of a grade; the second and the third have the same
    total. *)
Definition db_tie : DB := mkDB
  [Grade.mk 1 "2019/2020" (Some 100) (Some 200)]
  [GradeSeries.mk 11 1 1 150 None false]
  [Task.mk 101 11 "Uloha 1" 30]
  [GradeApplication.mk 1 1 1; GradeApplication.mk 2 1 2; GradeApplication.mk 3 1 3]
  [TaskSolutionSubmission.mk 1 1 101 None (Some 1000);
   TaskSolutionSubmission.mk 2 2 101 None (Some 2500);
   TaskSolutionSubmission.mk 3 3 101 None (Some 2500)]
  [] ∅.

(** The sticker a number stands for: of the stickers with the number, the
    last row of the table. *)
Definition sticker_of_nr (db : DB) (n : Z) : option Sticker.t :=
  last (filter (λ s, Sticker.nr s = n) (Sticker_objects db)).

(** ** The defaults of a grade *)

(** Python's [date]: a year, a month and a day. *)
Module date.
Record t := mk {
  year : Z;
  month : Z;
  day : Z;
}.
End date.

Definition MINYEAR : Z := 1.
Definition MAXYEAR : Z := 9999.

Definition _is_leap (year : Z) : bool :=
  bool_decide (year mod 4 = 0 ∧ (year mod 100 ≠ 0 ∨ year mod 400 = 0)).

Definition _DAYS_IN_MONTH (month : Z) : Z :=
  match month with
  | 1 => 31 | 2 => 28 | 3 => 31 | 4 => 30 | 5 => 31 | 6 => 30
  | 7 => 31 | 8 => 31 | 9 => 30 | 10 => 31 | 11 => 30 | 12 => 31
  | _ => -1
  end.

Definition _DAYS_BEFORE_MONTH (month : Z) : Z :=
  match month with
  | 1 => 0 | 2 => 31 | 3 => 59 | 4 => 90 | 5 => 120 | 6 => 151
  | 7 => 181 | 8 => 212 | 9 => 243 | 10 => 273 | 11 => 304 | 12 => 334
  | _ => -1
  end.

Definition _days_in_month (year month : Z) : Z :=
  if bool_decide (month = 2) && _is_leap year then 29 else _DAYS_IN_MONTH month.

Definition _days_before_year (year : Z) : Z :=
  let y := year - 1 in y * 365 + y / 4 - y / 100 + y / 400.

Definition _days_before_month (year month : Z) : Z :=
  _DAYS_BEFORE_MONTH month + (if bool_decide (2 < month) && _is_leap year then 1 else 0).

(** The fields of a date are in range. *)
Definition date_valid (d : date.t) : Prop :=
  MINYEAR ≤ date.year d ≤ MAXYEAR
  ∧ 1 ≤ date.month d ≤ 12
  ∧ 1 ≤ date.day d ≤ _days_in_month (date.year d) (date.month d).

Global Instance date_valid_dec d : Decision (date_valid d).
Proof. unfold date_valid. apply _. Defined.

(** [date(year, month, day)]; [None] stands for the [ValueError] on fields
    out of range. *)
Definition date_new (year month day : Z) : option date.t :=
  if decide (date_valid (date.mk year month day))
  then Some (date.mk year month day) else None.

(** [date.toordinal()]: the number of the day, 1 for 1 January of year 1.
    Dates compare as their ordinals do, and a [DateField] is held as the
    ordinal. *)
Definition toordinal (d : date.t) : Z :=
  _days_before_year (date.year d) + _days_before_month (date.year d) (date.month d)
  + date.day d.

(** [f"{current_year.year}/{current_year.year + 1}"], with [today] for
    [date.today()]. *)
Definition default_grade_school_year (today : date.t) : string :=
  pretty (date.year today) +:+ "/" +:+ pretty (date.year today + 1).

(** [date(date.today().year, 8, 1)] *)
Definition default_grade_start (today : date.t) : option Z :=
  toordinal <$> date_new (date.year today) 8 1.

(** [date(date.today().year + 1, 7, 31)] *)
Definition default_grade_end (today : date.t) : option Z :=
  toordinal <$> date_new (date.year today + 1) 7 31.

(** A grade made with the defaults on the day [today]. *)
Definition default_grade (pk : Z) (today : date.t) : Grade.t :=
  Grade.mk pk (default_grade_school_year today)
    (default_grade_start today) (default_grade_end today).

(** The string holds the character [/]. *)
Fixpoint has_slash (s : string) : bool :=
  match s with
  | EmptyString => false
  | String c s' => bool_decide (c = "/"%char) || has_slash s'
  end.

(** The row of an application before any submission is counted. *)
Definition unscored_row (db : DB) (self : GradeSeries.t) (a : GradeApplication.t) : row :=
  (a, empty_by_tasks (tasks_of db self), 0).

(** The order of [Meta.ordering = ("grade", "series")] within a grade. *)
Definition ordinal_le (a b : GradeSeries.t) : bool :=
  bool_decide (GradeSeries.series a ≤ GradeSeries.series b).

(** A grade with two series: the first has a task file and the deadline
    200, the second is [series_without_task_file], with the deadline 180. *)
Definition series_with_task_file : GradeSeries.t :=
  GradeSeries.mk 11 1 1 200 (Some "s1.pdf") false.
Definition grade_one_task_file : Grade.t := Grade.mk 1 "2019/2020" (Some 100) (Some 200).
Definition db_one_task_file : DB := mkDB
  [grade_one_task_file]
  [series_with_task_file; series_without_task_file]
  [] [] [] [] ∅.

(** * Facts *)

(** ** The stable sort *)

Section stable_sort_facts.
Context {A : Type} (before : A → A → bool).

Lemma insert_stable_perm x l : insert_stable before x l ≡ₚ x :: l.
Proof.
  induction l as [|y l IH]; simpl; [done|].
  destruct (before x y); [done|].
  rewrite IH. apply Permutation_swap.
Qed.

Lemma sorted_stable_perm l : sorted_stable before l ≡ₚ l.
Proof.
  induction l as [|x l IH]; simpl; [done|].
  by rewrite insert_stable_perm, IH.
Qed.

Lemma elem_of_sorted_stable x l : x ∈ sorted_stable before l ↔ x ∈ l.
Proof. by rewrite sorted_stable_perm. Qed.

Hypothesis before_total : ∀ x y, before x y = true ∨ before y x = true.

Lemma insert_stable_HdRel z x l :
  before z x = true → HdRel (λ a b, before a b = true) z l →
  HdRel (λ a b, before a b = true) z (insert_stable before x l).
Proof.
  intros Hzx Hz. destruct l as [|y l]; simpl.
  - by constructor.
  - destruct (before x y); constructor; [done|].
    by inversion Hz.
Qed.

Lemma insert_stable_Sorted x l :
  Sorted (λ a b, before a b = true) l →
  Sorted (λ a b, before a b = true) (insert_stable before x l).
Proof.
  induction 1 as [|y l Hs IH Hhd]; simpl.
  - repeat constructor.
  - destruct (before x y) eqn:Hxy.
    + constructor; [by constructor|by constructor].
    + constructor; [done|].
      apply insert_stable_HdRel; [|done].
      destruct (before_total x y) as [?|?]; congruence.
Qed.

Lemma sorted_stable_Sorted l :
  Sorted (λ a b, before a b = true) (sorted_stable before l).
Proof.
  induction l as [|x l IH]; simpl; [constructor|].
  by apply insert_stable_Sorted.
Qed.

End stable_sort_facts.

(** Adjacent elements of a [Sorted] list are related. *)
Lemma Sorted_adjacent {A} (R : A → A → Prop) (l : list A) (i : nat) (x y : A) :
  Sorted R l → l !! i = Some x → l !! S i = Some y → R x y.
Proof.
  intros Hs. revert i. induction Hs as [|z l Hs IH Hhd]; intros i Hx Hy; [done|].
  destruct i as [|i]; simpl in *.
  - injection Hx as ->. destruct l; [done|]. injection Hy as ->.
    by inversion Hhd.
  - by eapply IH.
Qed.

(** The head of a [Sorted] list of a transitive relation is related to
    every later element. *)
Lemma Sorted_head_least {A} (R : A → A → Prop) `{!Transitive R} (x : A) (l : list A) :
  Sorted R (x :: l) → ∀ y, y ∈ l → R x y.
Proof.
  intros Hs%Sorted_StronglySorted; [|done].
  apply StronglySorted_cons in Hs as [Hall _].
  intros y Hy. by eapply Forall_forall in Hall.
Qed.

(** ** Series that accept submissions *)

(** The attribute read is never [None], so the property is decided by the
    deadline alone. *)
Lemma accepts_solution_submissions_deadline (now : Z) (self : GradeSeries.t) :
  accepts_solution_submissions now self
  = bool_decide (now < GradeSeries.submission_deadline self).
Proof. done. Qed.

(** X1: a series whose deadline has passed does not accept submissions,
    also with a task file attached; a series whose deadline is ahead accepts
    them, so also one with a task file attached. *)
Lemma accepts_solution_submissions_by_deadline (now : Z) (self : GradeSeries.t) :
  (GradeSeries.submission_deadline self ≤ now →
   accepts_solution_submissions now self = false)
  ∧ (now < GradeSeries.submission_deadline self →
     accepts_solution_submissions now self = true).
Proof.
  rewrite accepts_solution_submissions_deadline. split; intros Hnow.
  - apply bool_decide_eq_false. lia.
  - by apply bool_decide_eq_true.
Qed.

(** C1: [accepts_solution_submissions] should hold exactly when a task file
    is attached and the deadline is strictly in the future.  On a series with
    no task file and a deadline ahead the property is [True]: the test
    [self.task_file is not None] is on the field's file object, which is
    never [None]. *)
Lemma accepts_solution_submissions_without_task_file :
  task_file_attached series_without_task_file = false
  ∧ bool_decide (100 < GradeSeries.submission_deadline series_without_task_file) = true
  ∧ accepts_solution_submissions 100 series_without_task_file = true.
Proof. done. Qed.

(** ** The current series of a grade *)

Lemma elem_of_Grade_series (db : DB) (self : Grade.t) (s : GradeSeries.t) :
  s ∈ Grade_series db self
  ↔ s ∈ GradeSeries_objects db ∧ GradeSeries.grade s = Grade.pk self.
Proof.
  unfold Grade_series. rewrite elem_of_sorted_stable, list_elem_of_filter. tauto.
Qed.

Lemma deadline_le_total (a b : GradeSeries.t) :
  deadline_le a b = true ∨ deadline_le b a = true.
Proof.
  unfold deadline_le. rewrite !bool_decide_eq_true. lia.
Qed.

Local Instance deadline_le_trans : Transitive (λ a b, deadline_le a b = true).
Proof.
  intros a b c. unfold deadline_le. rewrite !bool_decide_eq_true. lia.
Qed.

(** X24: [get_current_series] answers, among the series of the grade for
    which the property [accepts_solution_submissions] is [True], one with the
    earliest deadline, and [None] exactly when the property is [False] for
    every series of the grade. *)
Theorem get_current_series_earliest (now : Z) (db : DB) (self : Grade.t) :
  match get_current_series now db self with
  | Some s =>
      s ∈ GradeSeries_objects db
      ∧ GradeSeries.grade s = Grade.pk self
      ∧ accepts_solution_submissions now s = true
      ∧ ∀ s', s' ∈ GradeSeries_objects db →
              GradeSeries.grade s' = Grade.pk self →
              accepts_solution_submissions now s' = true →
              GradeSeries.submission_deadline s ≤ GradeSeries.submission_deadline s'
  | None =>
      ∀ s', s' ∈ GradeSeries_objects db →
            GradeSeries.grade s' = Grade.pk self →
            accepts_solution_submissions now s' = false
  end.
Proof.
  unfold get_current_series.
  set (open := filter (λ s, accepts_solution_submissions now s = true) (Grade_series db self)).
  assert (Hopen : ∀ s, s ∈ open ↔
    (s ∈ GradeSeries_objects db ∧ GradeSeries.grade s = Grade.pk self)
    ∧ accepts_solution_submissions now s = true).
  { intros s. unfold open. rewrite list_elem_of_filter, elem_of_Grade_series. tauto. }
  pose proof (sorted_stable_Sorted deadline_le deadline_le_total open) as Hsorted.
  pose proof (elem_of_sorted_stable deadline_le) as Hmem.
  destruct (sorted_stable deadline_le open) as [|s rest] eqn:Heq; simpl.
  - intros s' Hin Hgrade.
    destruct (accepts_solution_submissions now s') eqn:Hacc; [|done].
    assert (s' ∈ open) as Hs' by (apply Hopen; done).
    apply Hmem in Hs'. rewrite Heq in Hs'. by apply elem_of_nil in Hs'.
  - assert (s ∈ open) as Hs by (apply Hmem; rewrite Heq; left).
    apply Hopen in Hs as [[Hin Hgrade] Hacc].
    repeat split; try done.
    intros s' Hin' Hgrade' Hacc'.
    assert (s' ∈ s :: rest) as Hs'.
    { rewrite <- Heq. apply Hmem, Hopen. done. }
    apply elem_of_cons in Hs' as [->|Hs']; [lia|].
    pose proof (Sorted_head_least _ s rest Hsorted s' Hs') as Hle.
    unfold deadline_le in Hle. by apply bool_decide_eq_true in Hle.
Qed.

(** C9: [get_current_series] should answer, among the series of the grade
    with a task file attached and the deadline ahead, the one with the
    earliest deadline.  At the instant 100 the first series has a task file
    and the deadline 200, the second no task file and the deadline 180; the
    answer is the second series.  The filter is the property
    [accepts_solution_submissions], which the deadline alone decides. *)
Lemma get_current_series_without_task_file :
  task_file_attached series_with_task_file = true
  ∧ task_file_attached series_without_task_file = false
  ∧ bool_decide (100 < GradeSeries.submission_deadline series_with_task_file) = true
  ∧ bool_decide (100 < GradeSeries.submission_deadline series_without_task_file) = true
  ∧ get_current_series 100 db_one_task_file grade_one_task_file
    = Some series_without_task_file.
Proof. repeat split; by vm_compute. Qed.

(** ** Validation of a grade *)

(** C2: a grade whose range overlaps that of a stored grade should be
    rejected.  A new grade whose range strictly holds the stored one passes
    [full_clean]: the query asks only whether a stored range holds the new
    start date or the new end date. *)
Lemma full_clean_accepts_containing_range :
  ranges_overlap stored_grade containing_grade
  ∧ Grade.pk stored_grade ≠ Grade.pk containing_grade
  ∧ full_clean (λ _ _, Valid) db_one_grade containing_grade = Valid.
Proof. split; [|split]; [by vm_compute|done|by vm_compute]. Qed.

(** X2: what the check does catch: a stored grade, other than the one
    under validation, whose range holds the new start date or the new end
    date.  The error message carries the school year of such a grade. *)
Lemma full_clean_rejects_endpoint_overlap (db : DB) (self g : Grade.t) (start_d end_d : Z) :
  Grade.start_date self = Some start_d →
  Grade.end_date self = Some end_d →
  g ∈ Grade_objects db →
  Grade.pk g ≠ Grade.pk self →
  overlap_query start_d end_d g →
  ∃ g', g' ∈ Grade_objects db
        ∧ Grade.pk g' ≠ Grade.pk self
        ∧ overlap_query start_d end_d g'
        ∧ full_clean (λ _ _, Valid) db self
          = ValidationError
              ("Datum konání se překrývá s ročníkem '" +:+ Grade.school_year g' +:+ "'.").
Proof.
  intros Hs He Hin Hpk Hq. unfold full_clean. rewrite Hs, He.
  set (found := filter (λ g0, Grade.pk g0 ≠ Grade.pk self)
                  (filter (overlap_query start_d end_d) (Grade_all db))).
  assert (Hfound : ∀ x, x ∈ found ↔
    Grade.pk x ≠ Grade.pk self ∧ overlap_query start_d end_d x ∧ x ∈ Grade_objects db).
  { intros x. unfold found, Grade_all.
    by rewrite !list_elem_of_filter, elem_of_sorted_stable. }
  destruct found as [|g' rest] eqn:Heq; simpl.
  - assert (g ∈ []) as Hnil by (apply Hfound; done). by apply elem_of_nil in Hnil.
  - assert (g' ∈ g' :: rest) as Hg' by left.
    apply Hfound in Hg' as (? & ? & ?). by exists g'.
Qed.

(** X2, witness: a new grade that starts within the stored range. *)
Lemma full_clean_rejects_endpoint_overlap_witness :
  ∃ g', g' ∈ Grade_objects db_one_grade
        ∧ Grade.pk g' ≠ Grade.pk overlapping_grade
        ∧ overlap_query 150 250 g'
        ∧ full_clean (λ _ _, Valid) db_one_grade overlapping_grade
          = ValidationError
              ("Datum konání se překrývá s ročníkem '" +:+ Grade.school_year g' +:+ "'.").
Proof.
  apply (full_clean_rejects_endpoint_overlap db_one_grade overlapping_grade stored_grade 150 250).
  - reflexivity.
  - reflexivity.
  - left.
  - discriminate.
  - left. split; simpl; lia.
Defined.

(** X3: with both dates set and no such stored grade, [full_clean] adds no
    error of its own: the validation of the framework decides. *)
Lemma full_clean_accepts_without_endpoint_overlap
  (Model_full_clean : DB → Grade.t → validation) (db : DB) (self : Grade.t) (start_d end_d : Z) :
  Grade.start_date self = Some start_d →
  Grade.end_date self = Some end_d →
  Forall (λ g, Grade.pk g ≠ Grade.pk self → ¬ overlap_query start_d end_d g)
    (Grade_objects db) →
  full_clean Model_full_clean db self = Model_full_clean db self.
Proof.
  intros Hs He Hnone. unfold full_clean. rewrite Hs, He.
  destruct (Model_full_clean db self); [|done].
  set (found := filter (λ g0, Grade.pk g0 ≠ Grade.pk self)
                  (filter (overlap_query start_d end_d) (Grade_all db))).
  destruct found as [|g' rest] eqn:Heq; simpl; [done|].
  assert (g' ∈ found) as Hg' by (rewrite Heq; left).
  unfold found, Grade_all in Hg'.
  rewrite !list_elem_of_filter, elem_of_sorted_stable in Hg'.
  destruct Hg' as (? & ? & ?).
  by destruct (proj1 (Forall_forall _ _) Hnone g').
Qed.

(** X3, witness: a new grade after the stored range. *)
Lemma full_clean_accepts_without_endpoint_overlap_witness :
  full_clean (λ _ _, Valid) db_one_grade later_grade = Valid.
Proof.
  apply (full_clean_accepts_without_endpoint_overlap (λ _ _, Valid)
           db_one_grade later_grade 300 400).
  - reflexivity.
  - reflexivity.
  - apply (bool_decide_unpack _). vm_compute. exact I.
Defined.

(** ** The dict of scores *)

Section pydict_facts.
Context {V : Type}.
Implicit Types (k a : GradeApplication.t) (v : V) (d : list (GradeApplication.t * V)).

Lemma dict_get_set k a v d :
  dict_get a (dict_set k v d)
  = if decide (GradeApplication.pk k = GradeApplication.pk a) then Some v else dict_get a d.
Proof.
  induction d as [|[k' v'] d IH]; simpl.
  - repeat case_decide; congruence.
  - repeat (case_decide; simpl); try congruence.
Qed.

Lemma dict_keys_set k v d p :
  p ∈ dict_keys (dict_set k v d) ↔ p = GradeApplication.pk k ∨ p ∈ dict_keys d.
Proof.
  unfold dict_keys. induction d as [|[k' v'] d IH]; simpl.
  - rewrite list_elem_of_singleton. set_solver.
  - case_decide; simpl; rewrite !elem_of_cons; [|rewrite IH]; naive_solver.
Qed.

Lemma dict_keys_set_NoDup k v d : NoDup (dict_keys d) → NoDup (dict_keys (dict_set k v d)).
Proof.
  induction d as [|[k' v'] d IH]; simpl.
  - intros _. apply NoDup_singleton.
  - rewrite NoDup_cons. intros [Hk' Hd]. case_decide; simpl.
    + by apply NoDup_cons.
    + apply NoDup_cons. split; [|by apply IH].
      fold (dict_keys (dict_set k v d)). rewrite dict_keys_set. naive_solver.
Qed.

(** The key objects of the dict after an assignment are those it had, and
    the assigned key. *)
Lemma dict_set_key_objects k v d a w :
  (a, w) ∈ dict_set k v d → a = k ∨ ∃ w', (a, w') ∈ d.
Proof.
  induction d as [|[k' v'] d IH]; simpl.
  - rewrite list_elem_of_singleton. naive_solver.
  - case_decide; rewrite !elem_of_cons.
    + intros [Heq|Hin]; right.
      * injection Heq as -> _. exists v'. by left.
      * exists w. by right.
    + intros [Heq|Hin].
      * injection Heq as -> ->. right. exists v'. by left.
      * destruct (IH Hin) as [->|[w' ?]]; [by left|].
        right. exists w'. by right.
Qed.

Lemma dict_get_is_Some a d : is_Some (dict_get a d) ↔ GradeApplication.pk a ∈ dict_keys d.
Proof.
  unfold dict_keys. induction d as [|[k' v'] d IH]; simpl.
  - rewrite elem_of_nil. split; [by intros [? ?]|done].
  - rewrite elem_of_cons. case_decide; simpl.
    + split; [by left|by eexists].
    + rewrite IH. naive_solver.
Qed.

(** An entry of a dict is what its key reads. *)
Lemma dict_get_elem_of a v d :
  NoDup (dict_keys d) → (a, v) ∈ d → dict_get a d = Some v.
Proof.
  induction d as [|[k' v'] d IH]; simpl.
  - intros _ []%elem_of_nil.
  - rewrite NoDup_cons, elem_of_cons. intros [Hk' Hd] [[= -> ->]|Hin].
    + by case_decide.
    + case_decide as Heq; [|by apply IH].
      destruct Hk'. unfold dict_keys. apply list_elem_of_fmap.
      exists (a, v). by rewrite Heq.
Qed.

(** What a key reads is an entry of the dict, under an equal key. *)
Lemma dict_get_Some_elem_of a v d :
  dict_get a d = Some v →
  ∃ k, (k, v) ∈ d ∧ GradeApplication.pk k = GradeApplication.pk a.
Proof.
  induction d as [|[k' v'] d IH]; simpl; [done|].
  case_decide.
  - intros [= ->]. exists k'. split; [left|done].
  - intros [k [? ?]]%IH. exists k. split; [by right|done].
Qed.

End pydict_facts.

(** ** The loop over the submissions *)

Lemma py_find_Some {A} (P : A → Prop) `{!∀ x, Decision (P x)} (l : list A) (x : A) :
  py_find P l = Some x → x ∈ l ∧ P x.
Proof.
  unfold py_find. intros Hx%head_Some_elem_of.
  apply list_elem_of_filter in Hx. tauto.
Qed.

Lemma py_find_is_Some {A} (P : A → Prop) `{!∀ x, Decision (P x)} (l : list A) (x : A) :
  x ∈ l → P x → is_Some (py_find P l).
Proof.
  intros Hin HP. unfold py_find. apply head_is_Some.
  intros Hnil. by apply (filter_nil_not_elem_of P l x).
Qed.

Lemma dict_get_pk {V} (a b : GradeApplication.t) (d : list (GradeApplication.t * V)) :
  GradeApplication.pk a = GradeApplication.pk b → dict_get a d = dict_get b d.
Proof.
  intros Hab. induction d as [|[k v] d IH]; simpl; [done|].
  rewrite Hab, IH. done.
Qed.

Section score_submissions_facts.
Variables (applications : list GradeApplication.t) (tasks : list Task.t).
Implicit Types (d : list (GradeApplication.t * scores)) (s : TaskSolutionSubmission.t).

Lemma score_submission_inv d s d' :
  score_submission applications tasks d s = Some d' →
  ∃ a sc, a ∈ applications
          ∧ GradeApplication.pk a = TaskSolutionSubmission.application_id s
          ∧ dict_get a d = Some sc
          ∧ d' = dict_set a (score_into tasks sc s) d.
Proof.
  unfold score_submission, _find_application. intros Hstep.
  destruct (py_find _ applications) as [a|] eqn:Hfind; simpl in Hstep; [|done].
  destruct (dict_get a d) as [sc|] eqn:Hget; simpl in Hstep; [|done].
  apply py_find_Some in Hfind as [Hin Hpk].
  exists a, sc. by injection Hstep as <-.
Qed.

Lemma score_submission_get d s d' (a : GradeApplication.t) :
  score_submission applications tasks d s = Some d' →
  dict_get a d'
  = (λ sc, if decide (TaskSolutionSubmission.application_id s = GradeApplication.pk a)
           then score_into tasks sc s else sc) <$> dict_get a d.
Proof.
  intros (a0 & sc & _ & Hpk & Hget & ->)%score_submission_inv.
  rewrite dict_get_set, Hpk. case_decide as Heq.
  - rewrite <- (dict_get_pk a0 a) by congruence. by rewrite Hget.
  - by destruct (dict_get a d).
Qed.

Lemma score_submission_keys d s d' :
  score_submission applications tasks d s = Some d' →
  (∀ p, p ∈ dict_keys d' ↔ p ∈ dict_keys d)
  ∧ (NoDup (dict_keys d) → NoDup (dict_keys d'))
  ∧ (Forall (λ e, e.1 ∈ applications) d → Forall (λ e, e.1 ∈ applications) d').
Proof.
  intros (a0 & sc & Hin & Hpk & Hget & ->)%score_submission_inv.
  assert (GradeApplication.pk a0 ∈ dict_keys d) as Hkey.
  { apply dict_get_is_Some. by eexists. }
  split; [|split].
  - intros p. rewrite dict_keys_set. naive_solver.
  - apply dict_keys_set_NoDup.
  - rewrite !Forall_forall. intros Hall [a w] Haw.
    destruct (dict_set_key_objects _ _ _ _ _ Haw) as [->|[w' Hw']]; [done|].
    apply (Hall _ Hw').
Qed.

Lemma score_submission_is_Some d s :
  (∃ a, a ∈ applications ∧ GradeApplication.pk a = TaskSolutionSubmission.application_id s) →
  (∀ a, a ∈ applications → GradeApplication.pk a ∈ dict_keys d) →
  is_Some (score_submission applications tasks d s).
Proof.
  intros [a [Hin Hpk]] Hkeys. unfold score_submission, _find_application.
  destruct (py_find_is_Some (λ a, GradeApplication.pk a = TaskSolutionSubmission.application_id s)
              applications a Hin Hpk) as [a0 Hfind].
  rewrite Hfind. simpl.
  apply py_find_Some in Hfind as [Hin0 _].
  destruct (proj2 (dict_get_is_Some a0 d) (Hkeys a0 Hin0)) as [sc ->]. simpl.
  by eexists.
Qed.

Lemma score_submissions_None submissions :
  foldl (λ acc s, d' ← acc; score_submission applications tasks d' s) None submissions = None.
Proof. by induction submissions. Qed.

Lemma score_submissions_cons d s submissions :
  score_submissions applications tasks d (s :: submissions)
  = d' ← score_submission applications tasks d s;
    score_submissions applications tasks d' submissions.
Proof.
  unfold score_submissions. simpl.
  destruct (score_submission applications tasks d s); simpl; [done|].
  apply score_submissions_None.
Qed.

(** The loop runs to its end when every submission is of an application of
    the list and the dict holds all applications of the list. *)
Lemma score_submissions_is_Some submissions d :
  Forall (λ s, ∃ a, a ∈ applications
                    ∧ GradeApplication.pk a = TaskSolutionSubmission.application_id s)
    submissions →
  (∀ a, a ∈ applications → GradeApplication.pk a ∈ dict_keys d) →
  is_Some (score_submissions applications tasks d submissions).
Proof.
  intros Hall. revert d. induction Hall as [|s submissions Hs Hall IH]; intros d Hkeys.
  - by eexists.
  - rewrite score_submissions_cons.
    destruct (score_submission_is_Some d s Hs Hkeys) as [d' Hd']. rewrite Hd'. simpl.
    apply IH. intros a Hin.
    apply (score_submission_keys _ _ _ Hd'). by apply Hkeys.
Qed.

(** The dict after the loop: the same keys, and under each key what the
    submissions of that application have made of the scores. *)
Lemma score_submissions_get submissions d d' :
  score_submissions applications tasks d submissions = Some d' →
  (∀ a, dict_get a d'
        = scores_after tasks (GradeApplication.pk a) submissions <$> dict_get a d)
  ∧ (NoDup (dict_keys d) → NoDup (dict_keys d'))
  ∧ (Forall (λ e, e.1 ∈ applications) d → Forall (λ e, e.1 ∈ applications) d').
Proof.
  revert d. induction submissions as [|s submissions IH]; intros d.
  - intros [= <-]. split; [|done]. intros a. by destruct (dict_get a d).
  - rewrite score_submissions_cons.
    destruct (score_submission applications tasks d s) as [d1|] eqn:Hstep; [|done]. simpl.
    intros Hrest. destruct (IH _ Hrest) as (Hget & Hnodup & Hobjs).
    destruct (score_submission_keys _ _ _ Hstep) as (_ & Hnodup1 & Hobjs1).
    split; [|split; auto].
    intros a. rewrite Hget, (score_submission_get _ _ _ a Hstep).
    by destruct (dict_get a d).
Qed.

End score_submissions_facts.

(** The total after a run of submissions: what it was, and the scores of
    the application's scored submissions. *)
Lemma scores_after_total (tasks : list Task.t) (p : Z)
  (submissions : list TaskSolutionSubmission.t) (sc0 : scores) :
  total (scores_after tasks p submissions sc0)
  = total sc0
    + Zsum (omap TaskSolutionSubmission.score
              (filter (λ s, TaskSolutionSubmission.application_id s = p) submissions)).
Proof.
  unfold scores_after, Zsum. revert sc0.
  induction submissions as [|s submissions IH]; intros sc0; simpl; [lia|].
  rewrite IH, filter_cons. case_decide; [|done].
  set (rest := filter _ submissions).
  assert (omap TaskSolutionSubmission.score (s :: rest)
          = match TaskSolutionSubmission.score s with
            | Some y => y :: omap TaskSolutionSubmission.score rest
            | None => omap TaskSolutionSubmission.score rest
            end) as -> by done.
  unfold score_into. simpl.
  destruct (TaskSolutionSubmission.score s); simpl; lia.
Qed.

(** The keys of [by_tasks] after a run of submissions: those it had, and
    what [_find_task] answered for the application's submissions. *)
Lemma scores_after_by_tasks_dom (tasks : list Task.t) (p : Z)
  (submissions : list TaskSolutionSubmission.t) (sc0 : scores) :
  dom (by_tasks (scores_after tasks p submissions sc0))
  = dom (by_tasks sc0)
    ∪ list_to_set
        ((λ s, Task.pk <$> _find_task tasks (TaskSolutionSubmission.task_id s))
           <$> filter (λ s, TaskSolutionSubmission.application_id s = p) submissions).
Proof.
  unfold scores_after. revert sc0.
  induction submissions as [|s submissions IH]; intros sc0; simpl.
  - set_solver.
  - rewrite IH, filter_cons. case_decide; simpl; [|done].
    rewrite dom_insert_L. set_solver.
Qed.

(** ** The dict before the loop *)

Lemma empty_by_tasks_lookup (tasks : list Task.t) (k : option Z) :
  empty_by_tasks tasks !! k
  = if decide (k ∈ (λ t, Some (Task.pk t)) <$> tasks) then Some None else None.
Proof.
  unfold empty_by_tasks.
  assert (∀ m : gmap (option Z) (option Z),
    foldl (λ m t, <[Some (Task.pk t) := None]> m) m tasks !! k
    = if decide (k ∈ (λ t, Some (Task.pk t)) <$> tasks) then Some None else m !! k) as Hgen.
  { induction tasks as [|t tasks IH]; intros m; simpl; [done|].
    rewrite IH. destruct (decide (k = Some (Task.pk t))) as [->|Hne].
    - rewrite lookup_insert_eq. repeat case_decide; set_solver.
    - rewrite lookup_insert_ne by done. repeat case_decide; set_solver. }
  rewrite Hgen. by rewrite lookup_empty.
Qed.

Lemma empty_by_tasks_dom (tasks : list Task.t) :
  dom (empty_by_tasks tasks) = list_to_set ((λ t, Some (Task.pk t)) <$> tasks).
Proof.
  apply set_eq. intros k.
  rewrite elem_of_dom, empty_by_tasks_lookup, elem_of_list_to_set.
  case_decide; split; done.
Qed.

Section scoring_dict_init_facts.
Context {V : Type} (v0 : V).
Implicit Types (d : list (GradeApplication.t * V)) (applications : list GradeApplication.t).

Lemma dict_fill_get applications d (a : GradeApplication.t) :
  dict_get a (foldl (λ d a, dict_set a v0 d) d applications)
  = if decide (GradeApplication.pk a ∈ GradeApplication.pk <$> applications)
    then Some v0 else dict_get a d.
Proof.
  revert d. induction applications as [|a1 applications IH]; intros d; simpl; [done|].
  rewrite IH, dict_get_set.
  repeat case_decide; set_solver.
Qed.

Lemma dict_fill_NoDup applications d :
  NoDup (dict_keys d) → NoDup (dict_keys (foldl (λ d a, dict_set a v0 d) d applications)).
Proof.
  revert d. induction applications as [|a1 applications IH]; intros d Hd; simpl; [done|].
  by apply IH, dict_keys_set_NoDup.
Qed.

Lemma dict_fill_objects applications d (all : list GradeApplication.t) :
  Forall (λ e, e.1 ∈ all) d →
  Forall (λ a, a ∈ all) applications →
  Forall (λ e, e.1 ∈ all) (foldl (λ d a, dict_set a v0 d) d applications).
Proof.
  intros Hd Happs. revert d Hd.
  induction Happs as [|a1 applications Ha1 Happs IH]; intros d Hd; simpl; [done|].
  apply IH. rewrite Forall_forall in Hd |- *. intros [a w] Haw.
  destruct (dict_set_key_objects _ _ _ _ _ Haw) as [->|[w' Hw']]; [done|].
  apply (Hd _ Hw').
Qed.

End scoring_dict_init_facts.

(** ** The rows of the listing *)

Lemma total_desc_total (r1 r2 : row) : total_desc r1 r2 = true ∨ total_desc r2 r1 = true.
Proof. unfold total_desc. rewrite !bool_decide_eq_true. lia. Qed.

(** [calculate_results] returns: the lookups in its loop succeed.  Every row
    is of an application of the grade and carries its scores, every
    application of the grade has a row, and the rows are in descending order
    of the total. *)
Lemma calculate_results_rows (db : DB) (self : GradeSeries.t) :
  ∃ res, calculate_results db self = Some res
    ∧ max_score res = aggregate_Sum (Task.points <$> tasks_upto db self)
    ∧ (∀ r, r ∈ listing res →
         row_application r ∈ applications_of db self
         ∧ row_by_tasks r = by_tasks (scores_of db self (GradeApplication.pk (row_application r)))
         ∧ row_total r = total (scores_of db self (GradeApplication.pk (row_application r))))
    ∧ (∀ a, a ∈ applications_of db self →
         ∃ r, r ∈ listing res ∧ GradeApplication.pk (row_application r) = GradeApplication.pk a)
    ∧ Sorted (λ r1 r2, total_desc r1 r2 = true) (listing res).
Proof.
  unfold calculate_results, scores_of.
  set (applications := applications_of db self).
  set (tasks := tasks_of db self).
  set (submissions := submissions_of db self).
  set (v0 := mkScores (empty_by_tasks tasks) 0).
  assert (Hinit : ∀ a, a ∈ applications →
            dict_get a (scoring_dict_init applications tasks) = Some v0).
  { intros a Hin. unfold scoring_dict_init. fold v0. rewrite dict_fill_get.
    rewrite decide_True; [done|]. apply list_elem_of_fmap. by exists a. }
  destruct (score_submissions_is_Some applications tasks submissions
              (scoring_dict_init applications tasks)) as [d Hd].
  { apply Forall_forall. intros s Hs.
    apply list_elem_of_filter in Hs as [[Happ _] _].
    apply Exists_exists in Happ as (a & Hin & Hpk & Hgrade).
    exists a. split; [|done]. apply list_elem_of_filter. done. }
  { intros a Hin. apply dict_get_is_Some. rewrite (Hinit a Hin). by eexists. }
  destruct (score_submissions_get _ _ _ _ _ Hd) as (Hget & Hnodup & Hobjs).
  assert (NoDup (dict_keys d)) as Hnodup'.
  { apply Hnodup. unfold scoring_dict_init. apply dict_fill_NoDup. constructor. }
  assert (Forall (λ e, e.1 ∈ applications) d) as Hobjs'.
  { apply Hobjs. unfold scoring_dict_init. apply dict_fill_objects; [constructor|].
    by apply Forall_forall. }
  rewrite Hd. simpl. eexists. split; [done|]. simpl. split; [done|].
  split; [|split].
  - intros r Hr. apply elem_of_sorted_stable, list_elem_of_fmap in Hr as ([a sc] & -> & Hin).
    unfold row_application, row_by_tasks, row_total. simpl.
    assert (a ∈ applications) as Ha by apply (proj1 (Forall_forall _ _) Hobjs' _ Hin).
    pose proof (dict_get_elem_of _ _ _ Hnodup' Hin) as Hsc.
    rewrite Hget, (Hinit a Ha) in Hsc. injection Hsc as <-. done.
  - intros a Ha. pose proof (Hget a) as Hsc. rewrite (Hinit a Ha) in Hsc. simpl in Hsc.
    apply dict_get_Some_elem_of in Hsc as (k & Hin & Hpk).
    eexists. split.
    + apply elem_of_sorted_stable, list_elem_of_fmap. eexists. split; [|exact Hin]. done.
    + done.
  - apply sorted_stable_Sorted, total_desc_total.
Qed.

(** ** The per-task scores of a row *)

(** C3: the keys of a row's per-task scores should be exactly the tasks of
    the series.  For the second series the one task is 102, and the row of
    application 1 holds one key more: [None], with the score 5.00 of the
    submission for task 101 of the first series.  [_find_task] looks among
    the tasks of the series only, and its answer [None] is used as the key. *)
Lemma calculate_results_by_tasks_None_key :
  Task.pk <$> tasks_of db_two_series second_series = [102]
  ∧ (λ res, row_cells [Some 102; None] <$> listing res)
      <$> calculate_results db_two_series second_series
    = Some [(1, [Some None; Some (Some 500)], 500)].
Proof. split; by vm_compute. Qed.

(** X4: the keys of a row's per-task scores other than [None] are the tasks
    of the series; [None] is a key exactly when the application has, among the
    submissions counted, one for a task of another series. *)
Lemma calculate_results_by_tasks_keys (db : DB) (self : GradeSeries.t) :
  ∃ res, calculate_results db self = Some res ∧
    ∀ r, r ∈ listing res →
      (∀ p, Some p ∈ dom (row_by_tasks r) ↔ p ∈ Task.pk <$> tasks_of db self)
      ∧ (None ∈ dom (row_by_tasks r) ↔
           ∃ s, s ∈ submissions_of db self
                ∧ TaskSolutionSubmission.application_id s
                  = GradeApplication.pk (row_application r)
                ∧ TaskSolutionSubmission.task_id s ∉ Task.pk <$> tasks_of db self).
Proof.
  destruct (calculate_results_rows db self) as (res & Hres & _ & Hrows & _).
  exists res. split; [done|]. intros r Hr.
  destruct (Hrows r Hr) as (_ & -> & _). unfold scores_of.
  rewrite scores_after_by_tasks_dom. simpl. rewrite empty_by_tasks_dom.
  set (tasks := tasks_of db self).
  assert (Hfind : ∀ id, Task.pk <$> _find_task tasks id
                        = if decide (id ∈ Task.pk <$> tasks) then Some id else None).
  { intros id. unfold _find_task. case_decide as Hin.
    - apply list_elem_of_fmap in Hin as (t & -> & Hin).
      destruct (py_find_is_Some (λ t0, Task.pk t0 = Task.pk t) tasks t Hin eq_refl) as [t' Ht'].
      rewrite Ht'. apply py_find_Some in Ht' as [_ Hpk]. simpl. by rewrite Hpk.
    - destruct (py_find _ tasks) as [t'|] eqn:Ht'; [|done].
      apply py_find_Some in Ht' as [Hin' Hpk]. destruct Hin.
      apply list_elem_of_fmap. by exists t'. }
  split.
  - intros p. rewrite elem_of_union, !elem_of_list_to_set, !list_elem_of_fmap. split.
    + intros [(t & [= ->] & Hin)|(s & Heq & _)]; [by exists t|].
      rewrite Hfind in Heq. case_decide as Hin; [|done].
      injection Heq as ->. by apply list_elem_of_fmap.
    + intros (t & -> & Hin). left. by exists t.
  - rewrite elem_of_union, !elem_of_list_to_set, !list_elem_of_fmap. split.
    + intros [(t & [=] & _)|(s & Heq & Hin)].
      rewrite Hfind in Heq. case_decide as Hnot; [done|].
      apply list_elem_of_filter in Hin as [Happ Hin]. by exists s.
    + intros (s & Hin & Happ & Hnot). right. exists s. split.
      * rewrite Hfind. by rewrite decide_False.
      * by apply list_elem_of_filter.
Qed.

(** ** The cumulative total *)

Lemma submissions_of_application (db : DB) (self : GradeSeries.t) (a : GradeApplication.t) :
  a ∈ applications_of db self →
  filter (λ s, TaskSolutionSubmission.application_id s = GradeApplication.pk a)
    (submissions_of db self)
  = submissions_by db self (GradeApplication.pk a).
Proof.
  intros [Hgrade Hin]%list_elem_of_filter.
  unfold submissions_of, submissions_by. rewrite list_filter_filter.
  apply list_filter_iff. intros s. split; [tauto|].
  intros [Hpk Hlte]. repeat split; try done.
  apply Exists_exists. by exists a.
Qed.

(** With the submissions within the grade, the submissions counted for an
    application of the grade are those for the tasks of [tasks_upto]. *)
Lemma submissions_by_within_grade (db : DB) (self : GradeSeries.t) (a : GradeApplication.t) :
  submissions_within_grade db self →
  a ∈ applications_of db self →
  submissions_by db self (GradeApplication.pk a)
  = filter (λ s, TaskSolutionSubmission.application_id s = GradeApplication.pk a
                 ∧ TaskSolutionSubmission.task_id s ∈ Task.pk <$> tasks_upto db self)
      (TaskSolutionSubmission_objects db).
Proof.
  intros Hwithin [Hgrade Hin]%list_elem_of_filter.
  unfold submissions_by.
  assert (∀ s, s ∈ TaskSolutionSubmission_objects db →
    (TaskSolutionSubmission.application_id s = GradeApplication.pk a
     ∧ task__series__series__lte db (GradeSeries.series self) s)
    ↔ (TaskSolutionSubmission.application_id s = GradeApplication.pk a
       ∧ TaskSolutionSubmission.task_id s ∈ Task.pk <$> tasks_upto db self)) as Hiff.
  { intros s Hs. split; intros [Hpk Hlte]; (split; [done|]).
    - apply Exists_exists in Hlte as (t & Ht & Htid & Hgs).
      apply Exists_exists in Hgs as (gs & Hgs & Hgpk & Hle).
      apply list_elem_of_fmap. exists t. split; [done|].
      apply list_elem_of_filter. split; [|done].
      apply Exists_exists. exists gs. repeat split; try done.
      pose proof (proj1 (Forall_forall _ _) Hwithin s Hs) as Hs'.
      assert (application__grade db (GradeSeries.grade self) s) as Happ.
      { apply Exists_exists. by exists a. }
      pose proof (proj1 (Forall_forall _ _) (Hs' Happ) t Ht Htid) as Ht'.
      by apply (proj1 (Forall_forall _ _) Ht' gs Hgs).
    - apply list_elem_of_fmap in Hlte as (t & Htid & Ht).
      apply list_elem_of_filter in Ht as [Hq Ht].
      apply Exists_exists. exists t. repeat split; try done.
      apply Exists_exists in Hq as (gs & Hgs & Hgpk & _ & Hle).
      apply Exists_exists. by exists gs. }
  induction (TaskSolutionSubmission_objects db) as [|s l IH]; [done|].
  rewrite !filter_cons.
  assert (s ∈ s :: l) as Hs by left. specialize (Hiff s Hs) as Hs'.
  rewrite IH.
  - repeat case_decide; tauto.
  - intros s0 Hs0. apply Hiff. by right.
Qed.

(** C4: the total of a row should be the sum of the scores of the
    application's scored submissions for the tasks of the grade of the series
    up to the series.  The application of the first grade has no submission
    for a task of its grade, and its total is 5.00, from its submission for a
    task of the second grade: the submissions are chosen by the grade of
    their application and the ordinal of their task's series, without the
    grade of that series, which the query of [max_score] does ask for. *)
Lemma total_counts_tasks_of_other_grades :
  ¬ ∃ res, calculate_results db_across_grades series_of_first_grade = Some res ∧
      ∀ r, r ∈ listing res →
        row_total r
        = Zsum (omap TaskSolutionSubmission.score
                  (submissions_by_upto db_across_grades series_of_first_grade
                     (GradeApplication.pk (row_application r)))).
Proof.
  intros (res & Hres & Hrows).
  assert (listing <$> calculate_results db_across_grades series_of_first_grade
          = Some [(GradeApplication.mk 1 1 1, {[None := Some 500]}, 500)]) as Hlisting
    by (by vm_compute).
  rewrite Hres in Hlisting. simpl in Hlisting. injection Hlisting as Hlisting.
  specialize (Hrows (GradeApplication.mk 1 1 1, {[None := Some 500]}, 500)).
  rewrite Hlisting in Hrows. specialize (Hrows (list_elem_of_here _ _)).
  vm_compute in Hrows. done.
Qed.

(** The total of a row is the sum of the scores of the scored submissions
    that the query of [calculate_results] gives for the row's application;
    with the submissions within the grade, these are the submissions for the
    tasks of the grade up to the series. *)
Theorem calculate_results_total (db : DB) (self : GradeSeries.t) :
  ∃ res, calculate_results db self = Some res ∧
    ∀ r, r ∈ listing res →
      row_total r
      = Zsum (omap TaskSolutionSubmission.score
                (submissions_by db self (GradeApplication.pk (row_application r))))
      ∧ (submissions_within_grade db self →
         row_total r
         = Zsum (omap TaskSolutionSubmission.score
                   (submissions_by_upto db self (GradeApplication.pk (row_application r))))).
Proof.
  destruct (calculate_results_rows db self) as (res & Hres & _ & Hrows & _).
  exists res. split; [done|]. intros r Hr.
  destruct (Hrows r Hr) as (Happ & _ & ->). unfold scores_of.
  rewrite scores_after_total. simpl.
  rewrite submissions_of_application by done. split; [done|].
  intros Hwithin. by rewrite submissions_by_within_grade.
Qed.

(** X25: when every submission of an application of the grade is for a task
    of a series of that grade, [calculate_results] returns, and in every row
    of the listing the total is the sum of the scores of the scored
    submissions of the row's application for the tasks of the grade whose
    series has an ordinal up to that of the series; a submission without a
    score adds nothing. *)
Theorem calculate_results_total_within_grade (db : DB) (self : GradeSeries.t) :
  submissions_within_grade db self →
  ∃ res, calculate_results db self = Some res ∧
    ∀ r, r ∈ listing res →
      row_total r
      = Zsum (omap TaskSolutionSubmission.score
                (submissions_by_upto db self (GradeApplication.pk (row_application r)))).
Proof.
  intros Hwithin.
  destruct (calculate_results_total db self) as (res & Hres & Hrows).
  exists res. split; [done|]. intros r Hr.
  by apply (Hrows r Hr).
Qed.

(** X25, witness: the second of the two series of [db_two_series], whose
    application has a submission for the task of the first. *)
Lemma calculate_results_total_within_grade_witness :
  ∃ res, calculate_results db_two_series second_series = Some res ∧
    ∀ r, r ∈ listing res →
      row_total r
      = Zsum (omap TaskSolutionSubmission.score
                (submissions_by_upto db_two_series second_series
                   (GradeApplication.pk (row_application r)))).
Proof.
  apply (calculate_results_total_within_grade db_two_series second_series).
  apply (bool_decide_unpack _). vm_compute. exact I.
Defined.

(** ** The maximum score *)

(** C5, counterexample: with no task up to the series, [max_score] is not
    the sum of the points of these tasks, which is 0: it is [None]. *)
Lemma max_score_without_tasks_is_not_the_sum :
  ¬ ∃ res, calculate_results db_no_tasks series_no_tasks = Some res
           ∧ max_score res
             = Some (Zsum (Task.points <$> tasks_upto db_no_tasks series_no_tasks)).
Proof.
  intros (res & Hres & Hmax).
  assert (max_score <$> calculate_results db_no_tasks series_no_tasks = Some None) as Hnone
    by (by vm_compute).
  rewrite Hres in Hnone. simpl in Hnone. injection Hnone as Hnone.
  by rewrite Hnone in Hmax.
Qed.

(** C5, amended: [max_score] is the sum of the points of the tasks of the
    grade whose series has an ordinal up to that of the series when there is
    such a task, and [None] when there is none; it is the same in every
    database with the same series and tasks, whatever its applications and
    submissions. *)
Theorem calculate_results_max_score (db : DB) (self : GradeSeries.t) :
  ∃ res, calculate_results db self = Some res
    ∧ max_score res
      = (if decide (tasks_upto db self = []) then None
         else Some (Zsum (Task.points <$> tasks_upto db self)))
    ∧ ∀ db', GradeSeries_objects db' = GradeSeries_objects db →
             Task_objects db' = Task_objects db →
             ∃ res', calculate_results db' self = Some res'
                     ∧ max_score res' = max_score res.
Proof.
  destruct (calculate_results_rows db self) as (res & Hres & Hmax & _).
  exists res. split; [done|]. split.
  - rewrite Hmax. destruct (tasks_upto db self) as [|t l]; [done|].
    by rewrite decide_False.
  - intros db' Hseries Htasks.
    destruct (calculate_results_rows db' self) as (res' & Hres' & Hmax' & _).
    exists res'. split; [done|]. rewrite Hmax, Hmax'.
    do 2 f_equal. unfold tasks_upto. rewrite Htasks.
    apply list_filter_iff. intros t. unfold series__grade_and_lte. by rewrite Hseries.
Qed.

(** ** The order of the listing *)

(** C6: [calculate_results] returns, and of every two adjacent rows of the
    listing the earlier has a total greater than or equal to that of the
    later. *)
Theorem calculate_results_listing_descending (db : DB) (self : GradeSeries.t) :
  ∃ res, calculate_results db self = Some res ∧
    ∀ (i : nat) (r1 r2 : row),
      listing res !! i = Some r1 → listing res !! S i = Some r2 →
      row_total r2 ≤ row_total r1.
Proof.
  destruct (calculate_results_rows db self) as (res & Hres & _ & _ & _ & Hsorted).
  exists res. split; [done|]. intros i r1 r2 H1 H2.
  pose proof (Sorted_adjacent _ _ i r1 r2 Hsorted H1 H2) as Hle.
  unfold total_desc in Hle. by apply bool_decide_eq_true in Hle.
Qed.

(** ** A series without tasks up to it *)

(** C10: with no task of the grade up to the series, every application of
    the grade should have a row with the total 0.  Here no task of the first
    grade is up to its series, and the row of its application has the total
    5.00, from the submission for a task of the second grade: the same query
    without the grade of the task's series as for the totals above. *)
Lemma total_without_tasks_is_not_zero :
  ¬ (tasks_upto db_across_grades series_of_first_grade = [] →
     ∃ res, calculate_results db_across_grades series_of_first_grade = Some res
       ∧ max_score res = None
       ∧ ∀ a, a ∈ GradeApplication_objects db_across_grades →
              GradeApplication.grade a = GradeSeries.grade series_of_first_grade →
              ∃ r, r ∈ listing res
                   ∧ GradeApplication.pk (row_application r) = GradeApplication.pk a
                   ∧ row_total r = 0).
Proof.
  intros Hclaim. destruct Hclaim as (res & Hres & _ & Hrows); [by vm_compute|].
  assert ((λ res, row_total <$> listing res)
            <$> calculate_results db_across_grades series_of_first_grade
          = Some [500]) as Htotals by (by vm_compute).
  rewrite Hres in Htotals. simpl in Htotals. injection Htotals as Htotals.
  destruct (Hrows (GradeApplication.mk 1 1 1)) as (r & Hr & _ & Hzero); [left|done|].
  assert (row_total r ∈ row_total <$> listing res) as Hin.
  { apply list_elem_of_fmap. by exists r. }
  rewrite Htotals, Hzero in Hin. by apply list_elem_of_singleton in Hin.
Qed.

(** X26: when no task of the grade has a series with an ordinal up to that
    of the series, [calculate_results] returns [max_score = None] and a
    listing with a row for every application of the grade; the totals of the
    rows are 0 when every submission of an application of the grade is for a
    task of a series of that grade. *)
Theorem calculate_results_without_tasks (db : DB) (self : GradeSeries.t) :
  tasks_upto db self = [] →
  ∃ res, calculate_results db self = Some res
    ∧ max_score res = None
    ∧ (∀ a, a ∈ GradeApplication_objects db →
            GradeApplication.grade a = GradeSeries.grade self →
            ∃ r, r ∈ listing res
                 ∧ GradeApplication.pk (row_application r) = GradeApplication.pk a)
    ∧ (submissions_within_grade db self → ∀ r, r ∈ listing res → row_total r = 0).
Proof.
  intros Hnone.
  destruct (calculate_results_rows db self) as (res & Hres & Hmax & Hrows & Hall & _).
  exists res. split; [done|]. split; [by rewrite Hmax, Hnone|]. split.
  - intros a Hin Hgrade. apply Hall. by apply list_elem_of_filter.
  - intros Hwithin r Hr. destruct (Hrows r Hr) as (Happ & _ & ->).
    unfold scores_of. rewrite scores_after_total. simpl.
    rewrite (submissions_of_application _ _ _ Happ).
    rewrite (submissions_by_within_grade _ _ _ Hwithin Happ), Hnone. simpl.
    rewrite (list_filter_iff _ (λ _, False)); [|intros s; set_solver].
    by induction (TaskSolutionSubmission_objects db).
Qed.

(** X26, witness: the series of [db_tasks_later] that comes before the
    tasks. *)
Lemma calculate_results_without_tasks_witness :
  tasks_upto db_tasks_later series_before_tasks = []
  ∧ submissions_within_grade db_tasks_later series_before_tasks
  ∧ ∃ res, calculate_results db_tasks_later series_before_tasks = Some res
    ∧ max_score res = None
    ∧ (∀ a, a ∈ GradeApplication_objects db_tasks_later →
            GradeApplication.grade a = GradeSeries.grade series_before_tasks →
            ∃ r, r ∈ listing res
                 ∧ GradeApplication.pk (row_application r) = GradeApplication.pk a)
    ∧ (∀ r, r ∈ listing res → row_total r = 0).
Proof.
  split; [reflexivity|].
  assert (submissions_within_grade db_tasks_later series_before_tasks) as Hwithin.
  { apply (bool_decide_unpack _). vm_compute. exact I. }
  split; [exact Hwithin|].
  destruct (calculate_results_without_tasks db_tasks_later series_before_tasks eq_refl)
    as (res & Hres & Hmax & Hrows & Hzero).
  exists res. repeat split; [exact Hres|exact Hmax|exact Hrows|exact (Hzero Hwithin)].
Defined.

(** ** The stickers of an eligibility listing *)

Lemma elem_of_uniq_from (seen l : list Z) (x : Z) :
  x ∈ uniq_from seen l ↔ x ∈ l ∧ x ∉ seen.
Proof.
  revert seen. induction l as [|y l IH]; intros seen; simpl.
  - rewrite elem_of_nil. tauto.
  - case_decide as Hseen.
    + rewrite IH, elem_of_cons. split; [tauto|]. intros [[->|?] ?]; tauto.
    + rewrite !elem_of_cons, IH, elem_of_cons. split.
      * intros [->|[? ?]]; tauto.
      * destruct (decide (x = y)); tauto.
Qed.

Lemma elem_of_flatten_uniq (ls : list (list Z)) (x : Z) :
  x ∈ flatten_uniq ls ↔ ∃ l, l ∈ ls ∧ x ∈ l.
Proof.
  unfold flatten_uniq. rewrite elem_of_uniq_from, list_elem_of_In, in_concat.
  setoid_rewrite <- list_elem_of_In. rewrite elem_of_nil. naive_solver.
Qed.

(** The dict of stickers holds, under a number, a sticker of that number. *)
Lemma stickers_by_nr_lookup_Some (db : DB) (sticker_nrs : list Z) (n : Z) (s : Sticker.t) :
  stickers_by_nr db sticker_nrs !! n = Some s →
  s ∈ Sticker_objects db ∧ Sticker.nr s = n.
Proof.
  unfold stickers_by_nr.
  set (found := filter (λ s, Sticker.nr s ∈ sticker_nrs) (Sticker_objects db)).
  assert (∀ m : gmap Z Sticker.t,
    foldl (λ m s, <[Sticker.nr s := s]> m) m found !! n = Some s →
    m !! n = Some s ∨ (s ∈ found ∧ Sticker.nr s = n)) as Hgen.
  { induction found as [|s1 l IH]; intros m; simpl; [by left|].
    intros [Hm|[Hin Hnr]]%IH.
    - destruct (decide (Sticker.nr s1 = n)) as [Heq|Hne].
      + rewrite Heq, lookup_insert_eq in Hm. injection Hm as ->. right. split; [left|done].
      + rewrite lookup_insert_ne in Hm by done. by left.
    - right. split; [by right|done]. }
  intros [Hempty|[Hin Hnr]]%Hgen; [by rewrite lookup_empty in Hempty|].
  apply list_elem_of_filter in Hin. tauto.
Qed.

(** It holds every number asked for that a sticker has. *)
Lemma stickers_by_nr_lookup_is_Some (db : DB) (sticker_nrs : list Z) (s : Sticker.t) :
  s ∈ Sticker_objects db → Sticker.nr s ∈ sticker_nrs →
  is_Some (stickers_by_nr db sticker_nrs !! Sticker.nr s).
Proof.
  intros Hin Hnr. unfold stickers_by_nr.
  assert (s ∈ filter (λ s, Sticker.nr s ∈ sticker_nrs) (Sticker_objects db)) as Hfound
    by (by apply list_elem_of_filter).
  revert Hfound. generalize (filter (λ s, Sticker.nr s ∈ sticker_nrs) (Sticker_objects db)).
  intros found.
  assert (∀ m : gmap Z Sticker.t,
    is_Some (m !! Sticker.nr s) ∨ s ∈ found →
    is_Some (foldl (λ m s, <[Sticker.nr s := s]> m) m found !! Sticker.nr s)) as Hgen.
  { induction found as [|s1 l IH]; intros m; simpl.
    - intros [?|[]%elem_of_nil]. done.
    - intros Hor. apply IH.
      destruct (decide (Sticker.nr s1 = Sticker.nr s)) as [Heq|Hne].
      + left. rewrite Heq, lookup_insert_eq. by eexists.
      + rewrite lookup_insert_ne by done.
        destruct Hor as [?|[->|?]%elem_of_cons]; [by left|done|by right]. }
  intros Hfound. apply Hgen. by right.
Qed.

(** The comprehension never raises: the subscript is guarded by the
    membership test.  Its value is the stickers found for the numbers, in the
    order of the numbers. *)
Lemma resolve_stickers_omap (by_nr : gmap Z Sticker.t) (sticker_nrs : list Z) :
  resolve_stickers by_nr sticker_nrs = Some (omap (λ n, by_nr !! n) sticker_nrs).
Proof.
  induction sticker_nrs as [|n rest IH]; simpl; [done|].
  rewrite IH. case_decide as Hdom.
  - apply elem_of_dom in Hdom as [s Hs]. by rewrite Hs.
  - apply not_elem_of_dom in Hdom. by rewrite Hdom.
Qed.

Lemma sticker_auto_assignment_fmap (db : DB) (listing : list (GradeApplication.t * list Z)) :
  sticker_auto_assignment db listing
  = Some ((λ item : GradeApplication.t * list Z,
             (item.1,
              omap (λ n, stickers_by_nr db (flatten_uniq (snd <$> listing)) !! n) item.2))
            <$> listing).
Proof.
  unfold sticker_auto_assignment. apply mapM_Some. apply Forall2_fmap_r, Forall_Forall2_diag.
  apply Forall_forall. intros [a nrs] _. simpl. by rewrite resolve_stickers_omap.
Qed.

(** C7: [sticker_auto_assignment] returns, for every listing, a listing of
    the same length with the same applications at the same places.  The
    stickers of an item are picked for its numbers, in their order: for a
    number that a sticker of the database has, a sticker of that number, and
    nothing for a number that no sticker has.  So
    [[(app1, {1, 2, 99}), (app2, {2})]] with no sticker 99 gives
    [[(app1, [sticker1, sticker2]), (app2, [sticker2])]]. *)
Theorem sticker_auto_assignment_resolves :
  (∀ (db : DB) (listing : list (GradeApplication.t * list Z)),
     ∃ out, sticker_auto_assignment db listing = Some out
       ∧ length out = length listing
       ∧ fst <$> out = fst <$> listing
       ∧ ∀ (i : nat) (a : GradeApplication.t) (nrs : list Z),
           listing !! i = Some (a, nrs) →
           ∃ pick : Z → option Sticker.t,
             out !! i = Some (a, omap pick nrs)
             ∧ ∀ n, n ∈ nrs →
                 match pick n with
                 | Some s => s ∈ Sticker_objects db ∧ Sticker.nr s = n
                 | None => ∀ s, s ∈ Sticker_objects db → Sticker.nr s ≠ n
                 end)
  ∧ sticker_auto_assignment db_two_stickers [(app1, [1; 2; 99]); (app2, [2])]
    = Some [(app1, [sticker1; sticker2]); (app2, [sticker2])].
Proof.
  split; [|by vm_compute].
  intros db listing. rewrite sticker_auto_assignment_fmap.
  set (by_nr := stickers_by_nr db (flatten_uniq (snd <$> listing))).
  eexists. split; [done|]. split; [by rewrite length_fmap|]. split.
  - rewrite <- list_fmap_compose. by apply list_fmap_ext.
  - intros i a nrs Hi. exists (λ n, by_nr !! n). split.
    + by rewrite list_lookup_fmap, Hi.
    + intros n Hn. destruct (by_nr !! n) as [s|] eqn:Hs.
      * by apply stickers_by_nr_lookup_Some in Hs.
      * intros s Hin Hnr.
        destruct (stickers_by_nr_lookup_is_Some db (flatten_uniq (snd <$> listing)) s Hin)
          as [s' Hs'].
        { apply elem_of_flatten_uniq. exists nrs. split; [|by rewrite Hnr].
          apply list_elem_of_fmap. exists (a, nrs). split; [done|].
          by apply list_elem_of_lookup_2 in Hi. }
        rewrite Hnr in Hs'. fold by_nr in Hs'. congruence.
Qed.

(** ** Recording the stickers *)

Lemma sync_stickers_of_application (application : GradeApplication.t)
  (stickers : list Sticker.t) (db : DB) :
  foldl (λ db2 sticker, uses_add sticker application db2) db stickers
  = with_uses db
      (Sticker_uses db
       ∪ list_to_set ((λ sticker, (Sticker.pk sticker, GradeApplication.pk application))
                        <$> stickers)).
Proof.
  revert db. induction stickers as [|s stickers IH]; intros db; simpl.
  - destruct db. unfold with_uses. simpl. f_equal. set_solver.
  - rewrite IH. unfold with_uses, uses_add. simpl. f_equal. set_solver.
Qed.

(** The table after [sync_sticker_assignment]: the rows it had and the rows
    of the listing; the other tables are as they were. *)
Lemma sync_sticker_assignment_uses
  (eligibility_listing : list (GradeApplication.t * list Sticker.t)) (db : DB) :
  sync_sticker_assignment eligibility_listing db
  = with_uses db (Sticker_uses db ∪ uses_rows eligibility_listing).
Proof.
  unfold sync_sticker_assignment, uses_rows. revert db.
  induction eligibility_listing as [|[a stickers] l IH]; intros db; simpl.
  - destruct db. unfold with_uses. simpl. f_equal. set_solver.
  - rewrite sync_stickers_of_application, IH. unfold with_uses. simpl. f_equal.
    rewrite list_to_set_app_L. set_solver.
Qed.

Lemma elem_of_uses_of (db : DB) (sticker : Sticker.t) (p : Z) :
  p ∈ uses_of db sticker ↔ (Sticker.pk sticker, p) ∈ Sticker_uses db.
Proof.
  unfold uses_of. rewrite elem_of_map. split.
  - intros ([s' p'] & -> & [Hs Hin]%elem_of_filter). simpl in *. by rewrite <- Hs.
  - intros Hin. exists (Sticker.pk sticker, p). split; [done|].
    by apply elem_of_filter.
Qed.

(** C8: [sync_sticker_assignment] adds the application of every item of the
    listing to the uses of every sticker of the item, and doing it a second
    time with the same listing changes nothing: the database, and so the
    uses of every sticker, stay as the first time left them. *)
Theorem sync_sticker_assignment_idempotent
  (eligibility_listing : list (GradeApplication.t * list Sticker.t)) (db : DB) :
  sync_sticker_assignment eligibility_listing (sync_sticker_assignment eligibility_listing db)
  = sync_sticker_assignment eligibility_listing db
  ∧ (∀ sticker : Sticker.t,
       uses_of (sync_sticker_assignment eligibility_listing
                  (sync_sticker_assignment eligibility_listing db)) sticker
       = uses_of (sync_sticker_assignment eligibility_listing db) sticker)
  ∧ (∀ (application : GradeApplication.t) (stickers : list Sticker.t) (sticker : Sticker.t),
       (application, stickers) ∈ eligibility_listing → sticker ∈ stickers →
       GradeApplication.pk application
       ∈ uses_of (sync_sticker_assignment eligibility_listing db) sticker).
Proof.
  assert (sync_sticker_assignment eligibility_listing
            (sync_sticker_assignment eligibility_listing db)
          = sync_sticker_assignment eligibility_listing db) as Hidem.
  { rewrite !sync_sticker_assignment_uses. unfold with_uses. simpl. f_equal. set_solver. }
  split; [done|]. split; [by rewrite Hidem|].
  intros a stickers s Hitem Hs.
  rewrite elem_of_uses_of, sync_sticker_assignment_uses. simpl.
  apply elem_of_union_r. unfold uses_rows. rewrite elem_of_list_to_set.
  apply list_elem_of_bind. exists (a, stickers). split; [|done].
  apply list_elem_of_fmap. by exists s.
Qed.

(** X5: the uses of a sticker after [sync_sticker_assignment] are those it
    had and the applications of the items that hold a sticker with its key. *)
Lemma sync_sticker_assignment_uses_of
  (eligibility_listing : list (GradeApplication.t * list Sticker.t)) (db : DB)
  (sticker : Sticker.t) (p : Z) :
  p ∈ uses_of (sync_sticker_assignment eligibility_listing db) sticker
  ↔ p ∈ uses_of db sticker
    ∨ ∃ application stickers sticker',
        (application, stickers) ∈ eligibility_listing
        ∧ sticker' ∈ stickers
        ∧ Sticker.pk sticker' = Sticker.pk sticker
        ∧ GradeApplication.pk application = p.
Proof.
  rewrite !elem_of_uses_of, sync_sticker_assignment_uses. simpl.
  rewrite elem_of_union. unfold uses_rows. rewrite elem_of_list_to_set, list_elem_of_bind.
  split.
  - intros [?|([a stickers] & Hin & Hitem)]; [by left|right].
    apply list_elem_of_fmap in Hin as (s' & [= Hpk Hp] & Hs'). simpl in *.
    by exists a, stickers, s'.
  - intros [?|(a & stickers & s' & Hitem & Hs' & Hpk & Hp)]; [by left|right].
    exists (a, stickers). split; [|done].
    apply list_elem_of_fmap. exists s'. simpl. by rewrite Hpk, Hp.
Qed.

(** * Facts on the rest of the models *)

(** ** Stability of the sort *)

(** Elements that the order does not tell apart keep their places
    relative to each other. *)
Lemma insert_stable_filter {A} (before : A → A → bool) (K : A → Prop)
  `{!∀ x, Decision (K x)} (x : A) (l : list A) :
  (∀ x y, K x → K y → before x y = true) →
  filter K (insert_stable before x l) = filter K (x :: l).
Proof.
  intros Hsame. induction l as [|y l IH]; simpl; [done|].
  destruct (before x y) eqn:Hxy; [done|].
  rewrite (filter_cons _ y), IH, !(filter_cons _ x), (filter_cons _ y).
  destruct (decide (K x)) as [Hx|Hx]; [|done].
  destruct (decide (K y)) as [Hy|Hy]; [|done].
  rewrite (Hsame x y Hx Hy) in Hxy. done.
Qed.

Lemma sorted_stable_filter {A} (before : A → A → bool) (K : A → Prop)
  `{!∀ x, Decision (K x)} (l : list A) :
  (∀ x y, K x → K y → before x y = true) →
  filter K (sorted_stable before l) = filter K l.
Proof.
  intros Hsame. induction l as [|x l IH]; simpl; [done|].
  rewrite insert_stable_filter by done. by rewrite !filter_cons, IH.
Qed.

(** ** The current grade and the archive *)

Lemma end_date_desc_total (a b : Grade.t) :
  end_date_desc a b = true ∨ end_date_desc b a = true.
Proof.
  unfold end_date_desc.
  destruct (Grade.end_date a), (Grade.end_date b); try tauto.
  rewrite !bool_decide_eq_true. lia.
Qed.

Local Instance end_date_desc_trans : Transitive (λ a b, end_date_desc a b = true).
Proof.
  intros a b c. unfold end_date_desc.
  destruct (Grade.end_date a), (Grade.end_date b), (Grade.end_date c); try done.
  rewrite !bool_decide_eq_true. lia.
Qed.

Lemma Grade_all_Sorted (db : DB) :
  Sorted (λ a b, end_date_desc a b = true) (Grade_all db).
Proof. apply sorted_stable_Sorted, end_date_desc_total. Qed.

Lemma elem_of_Grade_all (db : DB) (g : Grade.t) : g ∈ Grade_all db ↔ g ∈ Grade_objects db.
Proof. apply elem_of_sorted_stable. Qed.

(** A filter keeps a list in order. *)
Lemma StronglySorted_filter {A} (R : A → A → Prop) (P : A → Prop)
  `{!∀ x, Decision (P x)} (l : list A) :
  StronglySorted R l → StronglySorted R (filter P l).
Proof.
  induction 1 as [|x l Hs IH Hall]; [constructor|].
  rewrite filter_cons. case_decide; [|done].
  constructor; [done|].
  apply Forall_forall. intros y [_ Hy]%list_elem_of_filter.
  by apply (proj1 (Forall_forall _ _) Hall).
Qed.

(** What [get_current] answers is the first of the grades, in the manager's
    order, whose range holds the date. *)
Lemma get_current_first (db : DB) (today : Z) (current : option Z) :
  match get_current db today current with
  | Some g =>
      g ∈ Grade_objects db
      ∧ holds_date g (default today current)
      ∧ ∀ g' e e', g' ∈ Grade_objects db → holds_date g' (default today current) →
                   Grade.end_date g = Some e → Grade.end_date g' = Some e' → e' ≤ e
  | None => ∀ g, g ∈ Grade_objects db → ¬ holds_date g (default today current)
  end.
Proof.
  unfold get_current, current_or_today. fold (holds_date).
  set (d := default today current).
  change (filter _ (Grade_all db)) with (filter (λ g, holds_date g d) (Grade_all db)).
  pose proof (StronglySorted_filter _ (λ g, holds_date g d) _
                (Sorted_StronglySorted _ _ (Grade_all_Sorted db))) as Hsorted.
  destruct (filter (λ g, holds_date g d) (Grade_all db)) as [|g rest] eqn:Heq; simpl.
  - intros g Hin Hholds.
    assert (g ∈ filter (λ g, holds_date g d) (Grade_all db)) as Hg.
    { apply list_elem_of_filter. split; [done|]. by apply elem_of_Grade_all. }
    rewrite Heq in Hg. by apply elem_of_nil in Hg.
  - assert (g ∈ filter (λ g, holds_date g d) (Grade_all db)) as Hg by (rewrite Heq; left).
    apply list_elem_of_filter in Hg as [Hholds Hin%elem_of_Grade_all].
    split; [done|]. split; [done|].
    intros g' e e' Hin' Hholds' He He'.
    assert (g' ∈ g :: rest) as Hg'.
    { rewrite <- Heq. apply list_elem_of_filter. split; [done|]. by apply elem_of_Grade_all. }
    apply elem_of_cons in Hg' as [->|Hg']; [by simplify_eq|].
    apply StronglySorted_cons in Hsorted as [Hall _].
    pose proof (proj1 (Forall_forall _ _) Hall g' Hg') as Hle.
    unfold end_date_desc in Hle. rewrite He, He' in Hle.
    by apply bool_decide_eq_true in Hle.
Qed.

(** X6: [get_current] answers a stored grade whose range holds the date
    (the given one, today when none is given), of several such grades one
    with the latest end date, and [None] exactly when no stored grade's range
    holds the date. *)
Theorem get_current_holds_date (db : DB) (today : Z) (current : option Z) :
  (∀ g, get_current db today current = Some g →
        g ∈ Grade_objects db
        ∧ holds_date g (default today current)
        ∧ ∀ g' e e', g' ∈ Grade_objects db → holds_date g' (default today current) →
                     Grade.end_date g = Some e → Grade.end_date g' = Some e' → e' ≤ e)
  ∧ (get_current db today current = None
     ↔ ∀ g, g ∈ Grade_objects db → ¬ holds_date g (default today current)).
Proof.
  pose proof (get_current_first db today current) as Hspec.
  destruct (get_current db today current) as [g0|].
  - split; [by intros g [= <-]|]. split; [done|].
    intros Hnone. destruct Hspec as (Hin & Hholds & _). by destruct (Hnone g0 Hin).
  - split; [done|]. by split.
Qed.

(** X7: when the stored grades' ranges do not overlap one another, the
    grade whose range holds the date is the one [get_current] answers. *)
Theorem get_current_unique (db : DB) (today : Z) (current : option Z) (g : Grade.t) :
  (∀ g1 g2, g1 ∈ Grade_objects db → g2 ∈ Grade_objects db → ranges_overlap g1 g2 → g1 = g2) →
  g ∈ Grade_objects db →
  holds_date g (default today current) →
  get_current db today current = Some g.
Proof.
  intros Hdisjoint Hin Hholds.
  pose proof (get_current_first db today current) as Hspec.
  destruct (get_current db today current) as [g0|]; [|by destruct (Hspec g Hin)].
  destruct Hspec as (Hin0 & Hholds0 & _). f_equal.
  apply Hdisjoint; [done|done|].
  unfold ranges_overlap, holds_date, date_lte, date_gte in *.
  destruct (Grade.start_date g0), (Grade.end_date g0),
    (Grade.start_date g), (Grade.end_date g); simpl in *; try tauto.
  lia.
Qed.

(** X7, witness: day 150 lies in the second of three grades in a row. *)
Lemma get_current_unique_witness :
  get_current db_three_grades 150 None = Some grade_2019.
Proof.
  apply get_current_unique.
  - intros g1 g2 H1 H2.
    apply list_elem_of_In in H1. apply list_elem_of_In in H2. simpl in H1, H2.
    destruct H1 as [<-|[<-|[<-|[]]]]; destruct H2 as [<-|[<-|[<-|[]]]];
      unfold ranges_overlap; simpl; intros; try reflexivity; exfalso; lia.
  - left.
  - split; simpl; lia.
Defined.

Lemma is_in_progress_true (today : Z) (g : Grade.t) :
  is_in_progress today g = Some true ↔ holds_date g today.
Proof.
  unfold is_in_progress, holds_date, date_lte, date_gte.
  destruct (Grade.start_date g) as [s|]; simpl; [|split; [done|tauto]].
  case_bool_decide as Hs; [|split; [done|tauto]].
  destruct (Grade.end_date g) as [e|]; simpl; [|split; [done|tauto]].
  case_bool_decide; split; try done; tauto.
Qed.

(** X8: the grade [get_current] answers for a date is not in the archive of
    that date; the archive of a date is part of the archive of every later
    date, in the same order, which is that of the end dates, latest first;
    and no grade of the archive of a date is in progress on that date. *)
Theorem archive_grows (db : DB) (today : Z) (current later : option Z) :
  (∀ g, get_current db today current = Some g → g ∉ archive db today current)
  ∧ (default today current ≤ default today later →
     archive db today current `sublist_of` archive db today later)
  ∧ Sorted (λ a b, end_date_desc a b = true) (archive db today current)
  ∧ (∀ g, g ∈ archive db today current →
          is_in_progress (default today current) g ≠ Some true).
Proof.
  unfold archive, current_or_today.
  set (d := default today current). set (d' := default today later).
  assert (Hout : ∀ g, holds_date g d → ¬ date_lt (Grade.end_date g) d).
  { intros g [_ Hend]. unfold date_gte, date_lt in *.
    destruct (Grade.end_date g); [lia|done]. }
  split; [|split; [|split]].
  - intros g Hg [Hlt _]%list_elem_of_filter.
    pose proof (get_current_first db today current) as Hspec. rewrite Hg in Hspec.
    destruct Hspec as (_ & Hholds & _). by apply (Hout g).
  - intros Hle.
    rewrite <- (list_filter_filter_l (λ g, date_lt (Grade.end_date g) d)
                  (λ g, date_lt (Grade.end_date g) d')).
    + apply sublist_filter.
    + intros g. unfold date_lt. destruct (Grade.end_date g); [lia|done].
  - apply StronglySorted_Sorted, StronglySorted_filter.
    apply Sorted_StronglySorted; [apply _|apply Grade_all_Sorted].
  - intros g [Hlt _]%list_elem_of_filter Hprogress%is_in_progress_true.
    by apply (Hout g).
Qed.

(** X9: the grade [get_current] answers for today is in progress, and when
    a stored grade is in progress [get_current] answers a grade. *)
Theorem get_current_in_progress (db : DB) (today : Z) :
  (∀ g, get_current db today None = Some g → is_in_progress today g = Some true)
  ∧ (∀ g, g ∈ Grade_objects db → is_in_progress today g = Some true →
          is_Some (get_current db today None)).
Proof.
  pose proof (get_current_first db today None) as Hspec. simpl in Hspec.
  split.
  - intros g Hg. rewrite Hg in Hspec. apply is_in_progress_true. tauto.
  - intros g Hin Hprogress%is_in_progress_true.
    destruct (get_current db today None); [by eexists|].
    by destruct (Hspec g Hin).
Qed.

(** ** Events *)

Lemma start_date_desc_total (a b : Event.t) :
  start_date_desc a b = true ∨ start_date_desc b a = true.
Proof. unfold start_date_desc. rewrite !bool_decide_eq_true. lia. Qed.

Local Instance start_date_desc_trans : Transitive (λ a b, start_date_desc a b = true).
Proof. intros a b c. unfold start_date_desc. rewrite !bool_decide_eq_true. lia. Qed.

(** X10: [future] and [past] split the events between them: every event is
    in exactly one of the two, an event that ends on the date itself in
    [future]; each of the two is in the order of the start dates, latest
    first. *)
Theorem future_past_partition (events : list Event.t) (today : Z) (current : option Z) :
  future events today current ++ past events today current ≡ₚ events
  ∧ (∀ e, e ∈ future events today current → e ∉ past events today current)
  ∧ (∀ e, e ∈ events → Event.end_date e = default today current →
          e ∈ future events today current)
  ∧ Sorted (λ a b, start_date_desc a b = true) (future events today current)
  ∧ Sorted (λ a b, start_date_desc a b = true) (past events today current).
Proof.
  unfold future, past, current_or_today, Event_all.
  set (d := default today current).
  pose proof (Sorted_StronglySorted _ _
                (sorted_stable_Sorted start_date_desc start_date_desc_total events)) as Hsorted.
  split; [|split; [|split; [|split]]].
  - rewrite (list_filter_iff (λ e, Event.end_date e < d) (λ e, ¬ d ≤ Event.end_date e))
      by (intros e; lia).
    by rewrite filter_app_complement, sorted_stable_perm.
  - intros e [Hge _]%list_elem_of_filter [Hlt _]%list_elem_of_filter. lia.
  - intros e Hin Hend. apply list_elem_of_filter. split; [lia|].
    by apply elem_of_sorted_stable.
  - by apply StronglySorted_Sorted, StronglySorted_filter.
  - by apply StronglySorted_Sorted, StronglySorted_filter.
Qed.

(** ** What the validation of a grade leaves through *)

(** X11: when [full_clean] accepts a grade with both dates set, every other
    stored grade ends before the new start date, or starts after the new end
    date, or lies strictly inside the new range; this last case is the
    overlap the check leaves through. *)
Theorem full_clean_valid_ranges
  (Model_full_clean : DB → Grade.t → validation) (db : DB) (self : Grade.t) (start_d end_d : Z) :
  full_clean Model_full_clean db self = Valid →
  Grade.start_date self = Some start_d →
  Grade.end_date self = Some end_d →
  ∀ g s e, g ∈ Grade_objects db → Grade.pk g ≠ Grade.pk self →
           Grade.start_date g = Some s → Grade.end_date g = Some e →
           e < start_d ∨ end_d < s ∨ (start_d < s ∧ e < end_d).
Proof.
  intros Hvalid Hs He g s e Hin Hpk Hgs Hge.
  unfold full_clean in Hvalid. rewrite Hs, He in Hvalid.
  destruct (Model_full_clean db self); [|done].
  destruct (head _) as [g'|] eqn:Hhead; [done|].
  apply head_None in Hhead.
  assert (¬ overlap_query start_d end_d g) as Hnot.
  { intros Hq.
    assert (g ∈ filter (λ g0, Grade.pk g0 ≠ Grade.pk self)
                  (filter (overlap_query start_d end_d) (Grade_all db))) as Hg.
    { rewrite !list_elem_of_filter, elem_of_Grade_all. done. }
    rewrite Hhead in Hg. by apply elem_of_nil in Hg. }
  unfold overlap_query, date_lte, date_gte in Hnot. rewrite Hgs, Hge in Hnot. lia.
Qed.

(** X11, witness: the grade after the stored one. *)
Lemma full_clean_valid_ranges_witness :
  200 < 300 ∨ 400 < 100 ∨ (300 < 100 ∧ 200 < 400).
Proof.
  apply (full_clean_valid_ranges (λ _ _, Valid) db_one_grade later_grade 300 400
           eq_refl eq_refl eq_refl stored_grade 100 200).
  - left.
  - discriminate.
  - reflexivity.
  - reflexivity.
Defined.

(** ** Series with the same deadline *)

Lemma ordinal_le_total (a b : GradeSeries.t) : ordinal_le a b = true ∨ ordinal_le b a = true.
Proof. unfold ordinal_le. rewrite !bool_decide_eq_true. lia. Qed.

Local Instance ordinal_le_trans : Transitive (λ a b, ordinal_le a b = true).
Proof. intros a b c. unfold ordinal_le. rewrite !bool_decide_eq_true. lia. Qed.

(** X12: of the series of the grade that accept submissions and share the
    earliest deadline, [get_current_series] answers one with the least
    ordinal: the sort keeps them in the order of the grade's series. *)
Theorem get_current_series_least_ordinal
  (now : Z) (db : DB) (self : Grade.t) (s s' : GradeSeries.t) :
  get_current_series now db self = Some s →
  s' ∈ GradeSeries_objects db →
  GradeSeries.grade s' = Grade.pk self →
  accepts_solution_submissions now s' = true →
  GradeSeries.submission_deadline s' = GradeSeries.submission_deadline s →
  GradeSeries.series s ≤ GradeSeries.series s'.
Proof.
  unfold get_current_series. intros Hhead Hin Hgrade Hacc Hsame.
  set (open := filter (λ s, accepts_solution_submissions now s = true) (Grade_series db self))
    in Hhead.
  set (K := λ x : GradeSeries.t,
              GradeSeries.submission_deadline x = GradeSeries.submission_deadline s).
  assert (filter K (sorted_stable deadline_le open) = filter K open) as Hstable.
  { apply sorted_stable_filter. intros x y Hx Hy. unfold K in Hx, Hy.
    unfold deadline_le. apply bool_decide_eq_true. lia. }
  apply head_Some in Hhead as [rest Hrest].
  rewrite Hrest, filter_cons_True in Hstable by done.
  assert (StronglySorted (λ a b, ordinal_le a b = true) (filter K open)) as Hsorted.
  { do 2 apply StronglySorted_filter. apply Sorted_StronglySorted; [apply _|].
    apply (sorted_stable_Sorted ordinal_le ordinal_le_total). }
  rewrite <- Hstable in Hsorted. apply StronglySorted_cons in Hsorted as [Hall _].
  assert (s' ∈ s :: filter K rest) as Hs'.
  { rewrite Hstable. apply list_elem_of_filter. split; [done|].
    apply list_elem_of_filter. split; [done|]. by apply elem_of_Grade_series. }
  apply elem_of_cons in Hs' as [->|Hs']; [lia|].
  pose proof (proj1 (Forall_forall _ _) Hall s' Hs') as Hle.
  unfold ordinal_le in Hle. by apply bool_decide_eq_true in Hle.
Qed.

(** X12, witness: of two series with the same deadline the second comes
    before the third, though it is stored after it. *)
Lemma get_current_series_least_ordinal_witness :
  GradeSeries.series series_2_same_deadline ≤ GradeSeries.series series_3_same_deadline.
Proof.
  apply (get_current_series_least_ordinal 100 db_same_deadline
           (Grade.mk 1 "2019/2020" (Some 100) (Some 200))
           series_2_same_deadline series_3_same_deadline).
  - vm_compute. reflexivity.
  - left.
  - reflexivity.
  - reflexivity.
  - reflexivity.
Defined.

(** ** The rows of the listing, one by one *)

Lemma dict_keys_fst {V} (d : list (GradeApplication.t * V)) :
  dict_keys d = GradeApplication.pk <$> d.*1.
Proof. unfold dict_keys. by rewrite <- list_fmap_compose. Qed.

(** Assigning to a key that the dict holds leaves the keys in place;
    assigning to a new key puts it last. *)
Lemma dict_set_fst_present {V} (k : GradeApplication.t) (v : V)
  (d : list (GradeApplication.t * V)) :
  GradeApplication.pk k ∈ dict_keys d → (dict_set k v d).*1 = d.*1.
Proof.
  unfold dict_keys. induction d as [|[k' v'] d IH]; simpl.
  - intros []%elem_of_nil.
  - case_decide as Heq; simpl; [done|].
    intros [?|Hin]%elem_of_cons; [congruence|]. f_equal. by apply IH.
Qed.

Lemma dict_set_fst_absent {V} (k : GradeApplication.t) (v : V)
  (d : list (GradeApplication.t * V)) :
  GradeApplication.pk k ∉ dict_keys d → (dict_set k v d).*1 = d.*1 ++ [k].
Proof.
  unfold dict_keys. induction d as [|[k' v'] d IH]; simpl; [done|].
  rewrite not_elem_of_cons. intros [Hne Hnot].
  rewrite decide_False by congruence. simpl. f_equal. by apply IH.
Qed.

Lemma dict_fill_fst {V} (v0 : V) (applications : list GradeApplication.t)
  (d : list (GradeApplication.t * V)) :
  NoDup (dict_keys d ++ (GradeApplication.pk <$> applications)) →
  (foldl (λ d a, dict_set a v0 d) d applications).*1 = d.*1 ++ applications.
Proof.
  revert d. induction applications as [|a applications IH]; intros d Hnodup; simpl.
  - by rewrite app_nil_r.
  - assert (GradeApplication.pk a ∉ dict_keys d) as Hnot.
    { apply NoDup_app in Hnodup as (_ & Hdisj & _). intros Hin.
      apply (Hdisj _ Hin). left. }
    rewrite IH.
    + rewrite dict_set_fst_absent by done. by rewrite <- app_assoc.
    + rewrite dict_keys_fst, dict_set_fst_absent, fmap_app, <- dict_keys_fst by done.
      simpl. by rewrite <- app_assoc.
Qed.

Lemma score_submissions_fst (applications : list GradeApplication.t) (tasks : list Task.t)
  (submissions : list TaskSolutionSubmission.t) (d d' : list (GradeApplication.t * scores)) :
  score_submissions applications tasks d submissions = Some d' → d'.*1 = d.*1.
Proof.
  revert d. induction submissions as [|s submissions IH]; intros d.
  - by intros [= <-].
  - rewrite score_submissions_cons.
    destruct (score_submission applications tasks d s) as [d1|] eqn:Hstep; [|done]. simpl.
    intros Hrest%IH. rewrite Hrest.
    apply score_submission_inv in Hstep as (a & sc & _ & _ & Hget & ->).
    apply dict_set_fst_present, dict_get_is_Some. by eexists.
Qed.

Lemma applications_of_NoDup (db : DB) (self : GradeSeries.t) :
  NoDup (GradeApplication.pk <$> GradeApplication_objects db) →
  NoDup (GradeApplication.pk <$> applications_of db self).
Proof.
  intros Hnodup. eapply sublist_NoDup; [exact Hnodup|].
  unfold applications_of. apply fmap_sublist, sublist_filter.
Qed.

(** With the primary keys of the applications distinct, the listing is the
    rows of the grade's applications, sorted. *)
Lemma calculate_results_listing (db : DB) (self : GradeSeries.t) :
  NoDup (GradeApplication.pk <$> GradeApplication_objects db) →
  ∃ res, calculate_results db self = Some res
         ∧ listing res = sorted_stable total_desc (row_of db self <$> applications_of db self).
Proof.
  intros Hnodup%(applications_of_NoDup db self).
  destruct (calculate_results_rows db self) as (res & Hres & _ & Hrows & _).
  exists res. split; [done|].
  unfold calculate_results in Hres.
  set (applications := applications_of db self) in *.
  set (tasks := tasks_of db self) in *.
  destruct (score_submissions applications tasks _ _) as [d|] eqn:Hd; [|done].
  simpl in Hres. injection Hres as <-. simpl in *. f_equal.
  pose proof (score_submissions_fst _ _ _ _ _ Hd) as Hfst.
  unfold scoring_dict_init in Hfst. rewrite dict_fill_fst in Hfst by done.
  simpl in Hfst. rewrite <- Hfst.
  assert (∀ e, e ∈ d →
    (let '(application, sc) := e in (application, by_tasks sc, total sc))
    = row_of db self e.1) as Hrow.
  { intros [a sc] Hin.
    destruct (Hrows (a, by_tasks sc, total sc)) as (_ & Hby & Htotal).
    - apply elem_of_sorted_stable, list_elem_of_fmap. by exists (a, sc).
    - unfold row_of, row_by_tasks, row_total, row_application in *. simpl in *.
      by rewrite <- Hby, <- Htotal. }
  clear Hfst Hd Hrows. induction d as [|e d IH]; [done|]. simpl.
  rewrite (Hrow e) by left. f_equal.
  apply IH. intros e' He'. apply Hrow. by right.
Qed.

(** X13: with the primary keys of the applications distinct, the listing
    has one row for each application of the grade and no other row, and the
    rows with the same total stand in the order in which the applications
    are queried. *)
Theorem calculate_results_one_row_each (db : DB) (self : GradeSeries.t) :
  NoDup (GradeApplication.pk <$> GradeApplication_objects db) →
  ∃ res, calculate_results db self = Some res
    ∧ row_application <$> listing res ≡ₚ applications_of db self
    ∧ ∀ t, row_application <$> filter (λ r, row_total r = t) (listing res)
           `sublist_of` applications_of db self.
Proof.
  intros (res & Hres & Hlisting)%(calculate_results_listing db self).
  exists res. split; [done|]. rewrite Hlisting.
  assert (row_application <$> (row_of db self <$> applications_of db self)
          = applications_of db self) as Happs.
  { rewrite <- list_fmap_compose. apply list_fmap_id. }
  split.
  - by rewrite sorted_stable_perm, Happs.
  - intros t. rewrite sorted_stable_filter.
    + rewrite <- Happs at 2. apply fmap_sublist, sublist_filter.
    + intros x y Hx Hy. unfold total_desc. apply bool_decide_eq_true. lia.
Qed.

(** X13, witness: of three applications with the totals 10.00, 25.00 and
    25.00, the second and the third keep their order. *)
Lemma calculate_results_one_row_each_witness :
  ∃ res, calculate_results db_tie (GradeSeries.mk 11 1 1 150 None false) = Some res
    ∧ row_application <$> listing res
      ≡ₚ applications_of db_tie (GradeSeries.mk 11 1 1 150 None false)
    ∧ ∀ t, row_application <$> filter (λ r, row_total r = t) (listing res)
           `sublist_of` applications_of db_tie (GradeSeries.mk 11 1 1 150 None false).
Proof.
  apply (calculate_results_one_row_each db_tie (GradeSeries.mk 11 1 1 150 None false)).
  apply (bool_decide_unpack _). vm_compute. exact I.
Defined.

(** ** The score under a task *)

(** [_find_task] answers a task with the key asked for when the series has
    one, and [None] otherwise. *)
Lemma _find_task_pk (tasks : list Task.t) (task_id : Z) :
  Task.pk <$> _find_task tasks task_id
  = if decide (task_id ∈ Task.pk <$> tasks) then Some task_id else None.
Proof.
  unfold _find_task. case_decide as Hin.
  - apply list_elem_of_fmap in Hin as (t & -> & Hin).
    destruct (py_find_is_Some (λ t0, Task.pk t0 = Task.pk t) tasks t Hin eq_refl) as [t' Ht'].
    rewrite Ht'. apply py_find_Some in Ht' as [_ Hpk]. simpl. by rewrite Hpk.
  - destruct (py_find _ tasks) as [t'|] eqn:Ht'; [|done].
    apply py_find_Some in Ht' as [Hin' Hpk]. destruct Hin.
    apply list_elem_of_fmap. by exists t'.
Qed.

(** Under a key, [by_tasks] holds after a run of submissions the score of
    the last submission of the application that wrote under the key, and
    what it held before when there is none. *)
Lemma scores_after_by_tasks_last (tasks : list Task.t) (p : Z)
  (submissions : list TaskSolutionSubmission.t) (sc0 : scores) (k : option Z) :
  by_tasks (scores_after tasks p submissions sc0) !! k
  = match last (filter (λ s, TaskSolutionSubmission.application_id s = p
                             ∧ Task.pk <$> _find_task tasks (TaskSolutionSubmission.task_id s)
                               = k)
                  submissions) with
    | Some s => Some (TaskSolutionSubmission.score s)
    | None => by_tasks sc0 !! k
    end.
Proof.
  unfold scores_after.
  induction submissions as [|s submissions IH] using rev_ind; [done|].
  rewrite foldl_snoc, filter_app, filter_cons, filter_nil.
  destruct (decide (TaskSolutionSubmission.application_id s = p)) as [Hp|Hp].
  - unfold score_into at 1. simpl.
    destruct (decide (Task.pk <$> _find_task tasks (TaskSolutionSubmission.task_id s) = k))
      as [Hk|Hk].
    + rewrite decide_True by done. rewrite last_snoc, Hk. apply lookup_insert_eq.
    + rewrite decide_False by tauto. rewrite app_nil_r, lookup_insert_ne by done. apply IH.
  - rewrite decide_False by tauto. rewrite app_nil_r. apply IH.
Qed.

(** X14: in every row of the listing, under a task of the series stands
    the score of the last of the application's counted submissions for that
    task, in the order of the query, and [None] when the application has no
    submission for the task or the last one has no score. *)
Theorem calculate_results_by_tasks_last (db : DB) (self : GradeSeries.t) :
  ∃ res, calculate_results db self = Some res ∧
    ∀ r t, r ∈ listing res → t ∈ tasks_of db self →
      row_by_tasks r !! Some (Task.pk t)
      = Some (last (filter (λ s, TaskSolutionSubmission.task_id s = Task.pk t)
                      (submissions_by db self (GradeApplication.pk (row_application r))))
              ≫= TaskSolutionSubmission.score).
Proof.
  destruct (calculate_results_rows db self) as (res & Hres & _ & Hrows & _).
  exists res. split; [done|]. intros r t Hr Ht.
  destruct (Hrows r Hr) as (Happ & -> & _). unfold scores_of.
  rewrite scores_after_by_tasks_last. simpl.
  rewrite <- (submissions_of_application db self _ Happ), list_filter_filter.
  assert (Task.pk t ∈ Task.pk <$> tasks_of db self) as Hpk.
  { apply list_elem_of_fmap. by exists t. }
  rewrite (list_filter_iff _
             (λ s, TaskSolutionSubmission.task_id s = Task.pk t
                   ∧ TaskSolutionSubmission.application_id s
                     = GradeApplication.pk (row_application r))).
  - destruct (last _) as [s|]; simpl; [done|].
    rewrite empty_by_tasks_lookup. rewrite decide_True; [done|].
    apply list_elem_of_fmap. by exists t.
  - intros s. rewrite _find_task_pk. case_decide as Hin; split.
    + intros [? [= ?]]. done.
    + intros [-> ?]. done.
    + intros [? [=]].
    + intros [Hid ?]. by rewrite Hid in Hin.
Qed.

(** ** The sticker of a number *)

Lemma foldl_insert_nr_lookup (m : gmap Z Sticker.t) (stickers : list Sticker.t) (n : Z) :
  foldl (λ m s, <[Sticker.nr s := s]> m) m stickers !! n
  = match last (filter (λ s, Sticker.nr s = n) stickers) with
    | Some s => Some s
    | None => m !! n
    end.
Proof.
  induction stickers as [|s stickers IH] using rev_ind; [done|].
  rewrite foldl_snoc, filter_app, filter_cons, filter_nil.
  case_decide as Hn.
  - by rewrite last_snoc, Hn, lookup_insert_eq.
  - by rewrite app_nil_r, lookup_insert_ne.
Qed.

Lemma stickers_by_nr_lookup (db : DB) (sticker_nrs : list Z) (n : Z) :
  n ∈ sticker_nrs → stickers_by_nr db sticker_nrs !! n = sticker_of_nr db n.
Proof.
  intros Hn. unfold stickers_by_nr, sticker_of_nr.
  rewrite foldl_insert_nr_lookup, lookup_empty.
  rewrite list_filter_filter_l by (by intros s ->).
  by destruct (last _).
Qed.

(** X15: [sticker_auto_assignment] gives each item the stickers of its
    numbers, in the order of the numbers, where the sticker of a number is
    the last row of the sticker table with that number: of two stickers with
    one number every application gets the later one, and what an item gets
    does not depend on the other items. *)
Theorem sticker_auto_assignment_last (db : DB)
  (listing : list (GradeApplication.t * list Z)) :
  sticker_auto_assignment db listing
  = Some ((λ item : GradeApplication.t * list Z, (item.1, omap (sticker_of_nr db) item.2))
            <$> listing).
Proof.
  rewrite sticker_auto_assignment_fmap. f_equal.
  apply list_fmap_ext. intros i [a nrs] Hi. simpl. f_equal.
  apply list_omap_ext, Forall_Forall2_diag, Forall_forall. intros n Hn.
  apply stickers_by_nr_lookup, elem_of_flatten_uniq. exists nrs. split; [|done].
  apply list_elem_of_fmap. exists (a, nrs). split; [done|].
  by apply list_elem_of_lookup_2 in Hi.
Qed.

(** ** Resolving and recording *)

Lemma sticker_auto_assignment_with_uses (db : DB) (uses : gset (Z * Z))
  (listing : list (GradeApplication.t * list Z)) :
  sticker_auto_assignment (with_uses db uses) listing = sticker_auto_assignment db listing.
Proof. done. Qed.

(** X16: recording what [sticker_auto_assignment] has resolved puts every
    application of the listing among the uses of the sticker of each of its
    numbers that has one, and resolving the listing again after that gives
    the same. *)
Theorem sync_of_sticker_auto_assignment (db : DB)
  (listing : list (GradeApplication.t * list Z)) :
  ∃ out, sticker_auto_assignment db listing = Some out
    ∧ (∀ a nrs n s, (a, nrs) ∈ listing → n ∈ nrs → sticker_of_nr db n = Some s →
         GradeApplication.pk a ∈ uses_of (sync_sticker_assignment out db) s)
    ∧ sticker_auto_assignment (sync_sticker_assignment out db) listing = Some out.
Proof.
  rewrite sticker_auto_assignment_fmap.
  set (by_nr := stickers_by_nr db (flatten_uniq (snd <$> listing))).
  eexists. split; [done|]. split.
  - intros a nrs n s Hitem Hn Hs.
    rewrite elem_of_uses_of, sync_sticker_assignment_uses. simpl.
    apply elem_of_union_r. unfold uses_rows. rewrite elem_of_list_to_set.
    apply list_elem_of_bind. exists (a, omap (λ n, by_nr !! n) nrs). split.
    + apply list_elem_of_fmap. exists s. split; [done|].
      apply list_elem_of_omap. exists n. split; [done|].
      unfold by_nr. rewrite stickers_by_nr_lookup; [done|].
      apply elem_of_flatten_uniq. exists nrs. split; [|done].
      apply list_elem_of_fmap. by exists (a, nrs).
    + apply list_elem_of_fmap. by exists (a, nrs).
  - rewrite sync_sticker_assignment_uses, sticker_auto_assignment_with_uses.
    apply sticker_auto_assignment_fmap.
Qed.

(** ** Recording in parts and in any order *)

Lemma uses_rows_app (l1 l2 : list (GradeApplication.t * list Sticker.t)) :
  uses_rows (l1 ++ l2) = uses_rows l1 ∪ uses_rows l2.
Proof. unfold uses_rows. by rewrite bind_app, list_to_set_app_L. Qed.

(** X17: recording two listings one after the other is recording them
    joined, the order of the two does not matter, and neither does the order
    of the items of a listing. *)
Theorem sync_sticker_assignment_order (db : DB)
  (l1 l2 : list (GradeApplication.t * list Sticker.t)) :
  sync_sticker_assignment (l1 ++ l2) db
  = sync_sticker_assignment l2 (sync_sticker_assignment l1 db)
  ∧ sync_sticker_assignment l1 (sync_sticker_assignment l2 db)
    = sync_sticker_assignment l2 (sync_sticker_assignment l1 db)
  ∧ (l1 ≡ₚ l2 → sync_sticker_assignment l1 db = sync_sticker_assignment l2 db).
Proof.
  rewrite !sync_sticker_assignment_uses. unfold with_uses. simpl.
  split; [|split].
  - f_equal. rewrite uses_rows_app. set_solver.
  - f_equal. set_solver.
  - intros Hperm. f_equal. f_equal. unfold uses_rows. by rewrite Hperm.
Qed.

(** ** The defaults of a grade *)

Lemma _days_before_year_succ (year : Z) :
  _days_before_year (year + 1)
  = _days_before_year year + 365 + (if _is_leap year then 1 else 0).
Proof.
  unfold _days_before_year, _is_leap. simpl.
  replace (year + 1 - 1) with year by lia.
  case_bool_decide as Hleap; Z.div_mod_to_equations; lia.
Qed.

Lemma date_new_Some (year month day : Z) :
  date_valid (date.mk year month day) →
  date_new year month day = Some (date.mk year month day).
Proof. intros Hvalid. unfold date_new. by rewrite decide_True. Qed.

Lemma default_grade_start_Some (today : date.t) :
  date_valid today →
  default_grade_start today
  = Some (_days_before_year (date.year today) + _days_before_month (date.year today) 8 + 1).
Proof.
  intros (Hyear & _ & _). unfold default_grade_start.
  rewrite date_new_Some; [done|]. unfold date_valid, _days_in_month. simpl. lia.
Qed.

Lemma default_grade_end_Some (today : date.t) :
  date_valid today → date.year today < MAXYEAR →
  default_grade_end today
  = Some (_days_before_year (date.year today + 1)
          + _days_before_month (date.year today + 1) 7 + 31).
Proof.
  intros (Hyear & _ & _) Hmax. unfold default_grade_end.
  rewrite date_new_Some; [done|]. unfold date_valid, _days_in_month. simpl.
  unfold MINYEAR, MAXYEAR in *. lia.
Qed.



(** X19: the default ranges of successive years lie end to end: the
    default start of the year after is the day after the default end, so the
    ranges neither overlap nor leave a day out. *)
Theorem default_grade_ranges_tile (today next : date.t) (e : Z) :
  date_valid today → date_valid next →
  date.year next = date.year today + 1 →
  default_grade_end today = Some e →
  default_grade_start next = Some (e + 1).
Proof.
  intros Hvalid Hnext Hyear He. pose proof Hnext as (Hy & _ & _).
  rewrite default_grade_end_Some in He by (done || (unfold MINYEAR, MAXYEAR in *; lia)).
  injection He as <-. rewrite default_grade_start_Some, Hyear by done.
  unfold _days_before_month. simpl.
  destruct (_is_leap (date.year today + 1)); f_equal; lia.
Qed.

(** X19, witness: 5 March 2020 and 24 December 2021. *)
Lemma default_grade_ranges_tile_witness :
  default_grade_start (date.mk 2021 12 24) = Some (738002 + 1).
Proof.
  apply (default_grade_ranges_tile (date.mk 2020 3 5) (date.mk 2021 12 24) 738002).
  - apply (bool_decide_unpack _). vm_compute. exact I.
  - apply (bool_decide_unpack _). vm_compute. exact I.
  - reflexivity.
  - vm_compute. reflexivity.
Defined.

(** X20: a grade made with the defaults is in progress on the day it is
    made exactly when that day is in August or later in the year: made from
    January to July, it starts only on the coming 1 August. *)
Theorem default_grade_in_progress (pk : Z) (today : date.t) :
  date_valid today → date.year today < MAXYEAR →
  is_in_progress (toordinal today) (default_grade pk today)
  = Some (bool_decide (8 ≤ date.month today)).
Proof.
  intros Hvalid Hmax. pose proof Hvalid as (Hyear & Hmonth & Hday).
  unfold is_in_progress, default_grade. simpl.
  rewrite default_grade_start_Some, default_grade_end_Some by done. simpl.
  rewrite _days_before_year_succ.
  destruct today as [y m d]. unfold toordinal, _days_before_month, _days_in_month in *.
  simpl in *.
  assert (m = 1 ∨ m = 2 ∨ m = 3 ∨ m = 4 ∨ m = 5 ∨ m = 6 ∨ m = 7 ∨ m = 8 ∨ m = 9
          ∨ m = 10 ∨ m = 11 ∨ m = 12) as Hm by lia.
  destruct (_is_leap y), (_is_leap (y + 1));
    repeat (destruct Hm as [->|Hm]; [simpl in *; repeat case_bool_decide; (done || lia)|]);
    subst m; simpl in *; repeat case_bool_decide; (done || lia).
Qed.

(** X20, witness: 5 March 2020, when the default grade has not started. *)
Lemma default_grade_in_progress_witness :
  is_in_progress (toordinal (date.mk 2020 3 5)) (default_grade 1 (date.mk 2020 3 5))
  = Some (bool_decide (8 ≤ 3)).
Proof.
  apply (default_grade_in_progress 1 (date.mk 2020 3 5)).
  - apply (bool_decide_unpack _). vm_compute. exact I.
  - reflexivity.
Defined.

(** ** The default label of a grade *)

Lemma has_slash_pretty_N_go (x : N) (s : string) :
  has_slash (pretty_N_go x s) = has_slash s.
Proof.
  revert s. induction (N.lt_wf_0 x) as [x _ IH]; intros s.
  assert (x = 0 ∨ 0 < x)%N as [->|Hpos] by lia; [done|].
  rewrite pretty_N_go_step by done. rewrite IH by (by apply N.div_lt).
  simpl. rewrite bool_decide_eq_false_2; [done|].
  unfold pretty_N_char. by repeat case_match.
Qed.

Lemma has_slash_pretty (x : Z) : has_slash (pretty x) = false.
Proof.
  assert (∀ p, has_slash (pretty (N.pos p)) = false) as Hpos.
  { intros p. unfold pretty, pretty_N. rewrite decide_False by done.
    by rewrite has_slash_pretty_N_go. }
  destruct x as [|p|p]; [done|apply Hpos|].
  change (pretty (Z.neg p)) with ("-" +:+ pretty (N.pos p)). simpl. apply Hpos.
Qed.

(** Two strings without [/] that are followed by [/] in one string are the
    same. *)
Lemma append_slash_inj (s1 s2 t1 t2 : string) :
  has_slash s1 = false → has_slash s2 = false →
  s1 +:+ "/" +:+ t1 = s2 +:+ "/" +:+ t2 → s1 = s2.
Proof.
  revert s2. induction s1 as [|c1 s1 IH]; intros [|c2 s2]; simpl; try done.
  - rewrite orb_false_iff, bool_decide_eq_false. intros _ [Hc _] [= <- _]. done.
  - rewrite orb_false_iff, bool_decide_eq_false. intros [Hc _] _ [= -> _]. done.
  - rewrite !orb_false_iff. intros [_ H1] [_ H2] [= -> Hrest]. f_equal. by apply IH.
Qed.

(** X21: the default labels of two days are the same only when the days
    are of the same year, so the defaults of different years do not collide
    on the label, which is unique among the grades. *)
Theorem default_grade_school_year_inj (today other : date.t) :
  default_grade_school_year today = default_grade_school_year other ↔
  date.year today = date.year other.
Proof.
  unfold default_grade_school_year. split; [|by intros ->].
  intros Heq%append_slash_inj; [|apply has_slash_pretty..].
  by apply (inj pretty) in Heq.
Qed.

(** ** The listing before any submission *)

(** A list whose elements the order does not tell apart is sorted as it
    stands. *)
Lemma sorted_stable_same {A} (before : A → A → bool) (K : A → Prop)
  `{!∀ x, Decision (K x)} (l : list A) :
  (∀ x y, K x → K y → before x y = true) →
  Forall K l → sorted_stable before l = l.
Proof.
  intros Hsame Hall.
  assert (∀ k : list A, Forall K k → filter K k = k) as Hid.
  { induction 1; [done|]. rewrite filter_cons_True by done. by f_equal. }
  rewrite <- (Hid (sorted_stable before l)).
  - rewrite sorted_stable_filter by done. by apply Hid.
  - rewrite Forall_forall in Hall |- *. intros x Hx%elem_of_sorted_stable. by apply Hall.
Qed.

(** X22: with the primary keys of the applications distinct and no
    submission to count, the listing is the applications of the grade in the
    order of the query, each with the total 0 and [None] under every task of
    the series. *)
Theorem calculate_results_no_submissions (db : DB) (self : GradeSeries.t) :
  NoDup (GradeApplication.pk <$> GradeApplication_objects db) →
  submissions_of db self = [] →
  ∃ res, calculate_results db self = Some res
         ∧ listing res = unscored_row db self <$> applications_of db self.
Proof.
  intros (res & Hres & Hlisting)%(calculate_results_listing db self) Hnone.
  exists res. split; [done|]. rewrite Hlisting.
  assert (row_of db self <$> applications_of db self
          = unscored_row db self <$> applications_of db self) as ->.
  { apply list_fmap_ext. intros i a _. unfold row_of, scores_of. by rewrite Hnone. }
  apply (sorted_stable_same _ (λ r, row_total r = 0)).
  - intros x y Hx Hy. unfold total_desc. apply bool_decide_eq_true. lia.
  - apply Forall_forall. intros r (a & -> & _)%list_elem_of_fmap. done.
Qed.

(** X22, witness: the series before the tasks of [db_tasks_later]. *)
Lemma calculate_results_no_submissions_witness :
  ∃ res, calculate_results db_tasks_later series_before_tasks = Some res
         ∧ listing res
           = unscored_row db_tasks_later series_before_tasks
               <$> applications_of db_tasks_later series_before_tasks.
Proof.
  apply (calculate_results_no_submissions db_tasks_later series_before_tasks).
  - apply (bool_decide_unpack _). vm_compute. exact I.
  - vm_compute. reflexivity.
Defined.

(** ** The current series as time passes *)

Section sorted_stable_filter_comm.
Context {A : Type} (before : A → A → bool) (P : A → Prop) `{!∀ x, Decision (P x)}.
Context `{!Transitive (λ a b, before a b = true)}.

Lemma insert_stable_filter_out (x : A) (l : list A) :
  ¬ P x → filter P (insert_stable before x l) = filter P l.
Proof.
  intros Hx. induction l as [|y l IH]; simpl.
  - by rewrite filter_cons_False.
  - destruct (before x y); [by rewrite filter_cons_False|].
    by rewrite !(filter_cons _ y), IH.
Qed.

Lemma insert_stable_filter_in (x : A) (l : list A) :
  P x → StronglySorted (λ a b, before a b = true) l →
  filter P (insert_stable before x l) = insert_stable before x (filter P l).
Proof.
  intros Hx. induction 1 as [|y l Hs IH Hall]; simpl.
  - by rewrite filter_cons_True.
  - destruct (before x y) eqn:Hxy.
    + rewrite filter_cons_True by done. rewrite (filter_cons _ y).
      case_decide; simpl; [by rewrite Hxy|].
      destruct (filter P l) as [|z k] eqn:Hk; [done|]. simpl.
      assert (z ∈ l) as Hz.
      { assert (z ∈ filter P l) as Hin by (rewrite Hk; left).
        by apply list_elem_of_filter in Hin as [_ ?]. }
      pose proof (proj1 (Forall_forall _ _) Hall z Hz) as Hyz. simpl in Hyz.
      by rewrite (transitivity (R:=λ a b, before a b = true) Hxy Hyz).
    + rewrite !(filter_cons _ y). case_decide; simpl; [by rewrite Hxy, IH|done].
Qed.

(** Sorting what a filter leaves is filtering what is sorted. *)
Lemma sorted_stable_filter_comm (l : list A) :
  (∀ x y, before x y = true ∨ before y x = true) →
  sorted_stable before (filter P l) = filter P (sorted_stable before l).
Proof.
  intros Htotal. induction l as [|x l IH]; simpl; [done|].
  rewrite filter_cons. case_decide as Hx; simpl.
  - rewrite IH, insert_stable_filter_in; [done..|].
    apply Sorted_StronglySorted; [done|]. by apply sorted_stable_Sorted.
  - by rewrite insert_stable_filter_out.
Qed.

End sorted_stable_filter_comm.

(** X23: the current series of a grade stays the current series up to its
    deadline: what [get_current_series] answers at one instant it answers at
    every later instant before the deadline of that series. *)
Theorem get_current_series_until_deadline
  (now later : Z) (db : DB) (self : Grade.t) (s : GradeSeries.t) :
  get_current_series now db self = Some s →
  now ≤ later →
  later < GradeSeries.submission_deadline s →
  get_current_series later db self = Some s.
Proof.
  unfold get_current_series. intros Hhead Hnow Hlater.
  rewrite <- (list_filter_filter_l (λ s, accepts_solution_submissions later s = true)
                (λ s, accepts_solution_submissions now s = true)).
  - rewrite sorted_stable_filter_comm by (apply _ || apply deadline_le_total).
    apply head_Some in Hhead as [rest ->].
    rewrite filter_cons_True; [done|].
    rewrite accepts_solution_submissions_deadline. by apply bool_decide_eq_true.
  - intros x. rewrite !accepts_solution_submissions_deadline, !bool_decide_eq_true. lia.
Qed.

(** X23, witness: the second of the two series with the deadline 500, at
    the instants 100 and 400. *)
Lemma get_current_series_until_deadline_witness :
  get_current_series 400 db_same_deadline (Grade.mk 1 "2019/2020" (Some 100) (Some 200))
  = Some series_2_same_deadline.
Proof.
  apply (get_current_series_until_deadline 100 400).
  - vm_compute. reflexivity.
  - lia.
  - simpl. lia.
Defined.
